(** * Matrix-Processor: the matrix-computation engine

    A shallow embedding of [computeMatrices] (the function that turns parsed
    sheets, axis selections and matrix configurations into 0/1 intersection
    matrices), followed by the properties of it that the specification states.
    The code around it is embedded as well, with properties of its own: the
    rows built by [processFiles], the tables built by [exportToExcel], and
    the event handlers of the components [TabSelector], [ColumnSelector] and
    [MatrixConfigurator], whose states become the arguments of
    [computeMatrices].

    Modelling conventions.
    - A JavaScript string is a [string]: a sequence of code units, here the
      code units below 256.  [Array.prototype.sort()] without a comparator and
      [===] compare strings code unit by code unit, which is [String.le] and
      [=] on this type.
    - A row is the plain object built by the ingestion step, used as a map
      from header names to raw cell values: a [gmap string value] of its own
      properties.  A property read with an [undefined] column name reads the
      key ["undefined"], as the language converts the name to a property key.
    - A [Set] is an insertion-ordered list without duplicates.
    - The only operation of [computeMatrices] that can raise is the member
      access [file.sheets] on an [undefined] file; [result] records it. *)

From Stdlib Require Import Ascii.
From stdpp Require Import base list strings gmap sorting pretty.

Local Open Scope Z_scope.

Set Warnings "-clear-no-such-hyp".

(** ** Raw cell values and their coercions *)

(** Raw values a sheet cell or an absent property can hold.  Numbers are
    the integers (their decimal rendering is the one of [String] for every
    integer of magnitude below 10^21). *)
Inductive value : Type :=
| VUndefined
| VNull
| VBool (b : bool)
| VNum (n : Z)
| VStr (s : string).

(** Truthiness of a string: [if (s)]. *)
Definition str_truthy (s : string) : bool := bool_decide (s ≠ EmptyString).

(** Truthiness of a value, as the operand of [||]. *)
Definition truthy (v : value) : bool :=
  match v with
  | VUndefined | VNull => false
  | VBool b => b
  | VNum n => bool_decide (n ≠ 0)
  | VStr s => str_truthy s
  end.

(** [v || d] *)
Definition js_or (v d : value) : value := if truthy v then v else d.

(** [String(v)] *)
Definition js_String (v : value) : string :=
  match v with
  | VUndefined => "undefined"
  | VNull => "null"
  | VBool true => "true"
  | VBool false => "false"
  | VNum n => pretty n
  | VStr s => s
  end.

(** White space and line terminators among the code units below 256:
    TAB, LF, VT, FF, CR, SP and NBSP. *)
Definition is_white_space (c : ascii) : bool :=
  Ascii.is_space c || bool_decide (c = "160"%char).

Fixpoint trimStart (s : string) : string :=
  match s with
  | EmptyString => EmptyString
  | String c s' => if is_white_space c then trimStart s' else s
  end.

Definition trimEnd (s : string) : string :=
  String.rev (trimStart (String.rev s)).

(** [s.trim()] *)
Definition trim (s : string) : string := trimEnd (trimStart s).

(** ** The data model *)

(** A row of a sheet: header name to raw value. *)
Abbreviation row := (gmap string value).

Module Sheet.
Record t : Type := { name : string; headers : list string; data : list row }.
End Sheet.

Module File.
Record t : Type := { fileName : string; sheets : list Sheet.t }.
End File.

Module Source.
Record t : Type := { fileIndex : nat; sheetName : string; fileName : string }.
End Source.

(** One entry of [columnSelections]; a field that is absent or [null] is
    [None]. *)
Module Selection.
Record t : Type :=
  { yAxis : option string; xAxis : option string; secondaryXAxis : option string }.
End Selection.

Module Config.
Record t : Type := { name : string; sources : list Source.t; merge : bool }.
End Config.

Module Matrix.
Record t : Type :=
  { name : string; yAxis : list string; xAxis : list string; data : list (list Z) }.
End Matrix.

(** ** Exceptions *)

Inductive result (A : Type) : Type :=
| Ok (a : A)
| TypeError.
Arguments Ok {A} a.
Arguments TypeError {A}.

Global Instance result_bind : MBind result := λ A B f m,
  match m with
  | Ok a => f a
  | TypeError => TypeError
  end.

(** [l.forEach(a => body)] where the body updates the state [s] and may raise. *)
Fixpoint forEach {A S : Type} (body : S → A → result S) (s : S) (l : list A)
    : result S :=
  match l with
  | [] => Ok s
  | a :: l' => s' ← body s a; forEach body s' l'
  end.

(** ** Building blocks of [computeMatrices] *)

(** [row[col]]: the name of the column is converted to a property key. *)
Definition property_key (col : option string) : string :=
  match col with
  | Some c => c
  | None => "undefined"
  end.

Definition row_get (r : row) (col : option string) : value :=
  default VUndefined (r !! property_key col).

(** [String(row[col] || '').trim()] *)
Definition cellValue (r : row) (col : option string) : string :=
  trim (js_String (js_or (row_get r col) (VStr EmptyString))).

(** Truthiness of a column name: [secondaryXCol ? ... : null]. *)
Definition col_truthy (col : option string) : bool :=
  match col with
  | Some c => str_truthy c
  | None => false
  end.

(** [secondaryXCol ? String(row[secondaryXCol] || '').trim() : null] *)
Definition secondaryValue (r : row) (secondaryXCol : option string) : option string :=
  if col_truthy secondaryXCol then Some (cellValue r secondaryXCol) else None.

(** [set.add(x)]: a new element goes last, a present one changes nothing. *)
Definition set_add (x : string) (s : list string) : list string :=
  if decide (x ∈ s) then s else s ++ [x].

(** [if (v) set.add(v)] *)
Definition add_truthy (v : string) (s : list string) : list string :=
  if str_truthy v then set_add v s else s.

(** [Array.from(set).sort()] *)
Definition sort (s : list string) : list string := merge_sort String.le s.

Fixpoint indexOf_from (i : Z) (l : list string) (x : string) : Z :=
  match l with
  | [] => -1
  | y :: l' => if decide (y = x) then i else indexOf_from (i + 1) l' x
  end.

(** [l.indexOf(x)]: the first position of [x], or -1. *)
Definition indexOf (l : list string) (x : string) : Z := indexOf_from 0 l x.

(** [sortedY.map(() => sortedX.map(() => 0))] *)
Definition emptyGrid (sortedY sortedX : list string) : list (list Z) :=
  (λ _, (λ _, 0) <$> sortedX) <$> sortedY.

(** [data[yIdx][xIdx] = 1].  Both indices come from [indexOf] under the guard
    [yIdx >= 0 && xIdx >= 0] and are within the grid (lemmas [indexOf_lookup]
    and [indexOf_lt] below); outside it the grid is left as it is. *)
Definition set_cell (data : list (list Z)) (yIdx xIdx : Z) : list (list Z) :=
  alter (λ cells, <[Z.to_nat xIdx := 1]> cells) (Z.to_nat yIdx) data.

(** [`${source.fileIndex}-${source.sheetName}`] *)
Definition key_of (source : Source.t) : string :=
  pretty (Source.fileIndex source) +:+ "-" +:+ Source.sheetName source.

(** [columnSelections[key]?.field] *)
Definition selected (columnSelections : gmap string Selection.t)
    (source : Source.t) (field : Selection.t → option string) : option string :=
  columnSelections !! key_of source ≫= field.

(** [fileData[source.fileIndex].sheets.find(s => s.name === source.sheetName)]:
    raises when the file is [undefined], [None] when no sheet has the name. *)
Definition findSheet (fileData : list File.t) (source : Source.t)
    : result (option Sheet.t) :=
  match fileData !! Source.fileIndex source with
  | None => TypeError
  | Some file =>
      Ok (List.find (λ s, bool_decide (Sheet.name s = Source.sheetName source))
            (File.sheets file))
  end.

(** The three sets filled by the row loops. *)
Abbreviation sets := (list string * list string * list string)%type.

(** Row loop of the merged collection (lines 171 to 179). *)
Definition collectRow (yCol xCol secondaryXCol : option string)
    (acc : sets) (r : row) : sets :=
  let '(yValues, xValues, secondaryXValues) := acc in
  let yVal := cellValue r yCol in
  let xVal := cellValue r xCol in
  let secondaryXVal := secondaryValue r secondaryXCol in
  (add_truthy yVal yValues,
   add_truthy xVal xValues,
   match secondaryXVal with
   | Some v => add_truthy v secondaryXValues
   | None => secondaryXValues
   end).

(** Row loop of the independent collection (lines 275 to 283), where
    [secondaryXValues] is a set or [null]. *)
Definition collectRowIndependent (yCol xCol secondaryXCol : option string)
    (acc : list string * list string * option (list string)) (r : row)
    : list string * list string * option (list string) :=
  let '(yValues, xValues, secondaryXValues) := acc in
  let yVal := cellValue r yCol in
  let xVal := cellValue r xCol in
  let secondaryXVal := secondaryValue r secondaryXCol in
  (add_truthy yVal yValues,
   add_truthy xVal xValues,
   match secondaryXVal, secondaryXValues with
   | Some v, Some s => Some (add_truthy v s)
   | _, _ => secondaryXValues
   end).

(** The marking under the guard on the values (lines 213 to 217, 248 to 252,
    305 to 309 and 329 to 333). *)
Definition markIntersection (sortedY sortedX : list string)
    (data : list (list Z)) (yVal xVal : string) : list (list Z) :=
  let yIdx := indexOf sortedY yVal in
  let xIdx := indexOf sortedX xVal in
  if bool_decide (0 ≤ yIdx) && bool_decide (0 ≤ xIdx)
  then set_cell data yIdx xIdx
  else data.

(** Row body that marks an intersection (lines 243 to 254 and 324 to 335). *)
Definition markRow (yCol xCol : option string) (sortedY sortedX : list string)
    (data : list (list Z)) (r : row) : list (list Z) :=
  let yVal := cellValue r yCol in
  let xVal := cellValue r xCol in
  if str_truthy yVal && str_truthy xVal
  then markIntersection sortedY sortedX data yVal xVal
  else data.

(** Row body that marks an intersection of the matrix of the secondary value
    [secX] (lines 207 to 219 and 299 to 311). *)
Definition markRowSecondary (yCol xCol secondaryXCol : option string)
    (secX : string) (sortedY sortedX : list string)
    (data : list (list Z)) (r : row) : list (list Z) :=
  let yVal := cellValue r yCol in
  let xVal := cellValue r xCol in
  let secondaryXVal := secondaryValue r secondaryXCol in
  if str_truthy yVal && str_truthy xVal && bool_decide (secondaryXVal = Some secX)
  then markIntersection sortedY sortedX data yVal xVal
  else data.

(** ** Merge mode (lines 150 to 258) *)

Section compute.
Context (fileData : list File.t) (columnSelections : gmap string Selection.t).

(** Body of the collecting loop over the sources (lines 160 to 180). *)
Definition collectSource (acc : sets) (source : Source.t) : result sets :=
  sheet ← findSheet fileData source;
  match sheet with
  | None => Ok acc
  | Some sheet =>
      let yCol := selected columnSelections source Selection.yAxis in
      let xCol := selected columnSelections source Selection.xAxis in
      let secondaryXCol := selected columnSelections source Selection.secondaryXAxis in
      Ok (foldl (collectRow yCol xCol secondaryXCol) acc (Sheet.data sheet))
  end.

(** Body of the marking loop over the sources of the single merged matrix
    (lines 234 to 255). *)
Definition markSource (sortedY sortedX : list string)
    (data : list (list Z)) (source : Source.t) : result (list (list Z)) :=
  sheet ← findSheet fileData source;
  match sheet with
  | None => Ok data
  | Some sheet =>
      let yCol := selected columnSelections source Selection.yAxis in
      let xCol := selected columnSelections source Selection.xAxis in
      Ok (foldl (markRow yCol xCol sortedY sortedX) data (Sheet.data sheet))
  end.

(** Body of the marking loop over the sources of the matrix of [secX]
    (lines 197 to 220). *)
Definition markSourceSecondary (secX : string) (sortedY sortedX : list string)
    (data : list (list Z)) (source : Source.t) : result (list (list Z)) :=
  sheet ← findSheet fileData source;
  match sheet with
  | None => Ok data
  | Some sheet =>
      let yCol := selected columnSelections source Selection.yAxis in
      let xCol := selected columnSelections source Selection.xAxis in
      let secondaryXCol := selected columnSelections source Selection.secondaryXAxis in
      Ok (foldl (markRowSecondary yCol xCol secondaryXCol secX sortedY sortedX)
            data (Sheet.data sheet))
  end.

Definition hasSecondaryX (config : Config.t) : bool :=
  existsb (λ source, col_truthy (selected columnSelections source Selection.secondaryXAxis))
    (Config.sources config).

Definition computeMerged (config : Config.t) (matrices : list Matrix.t)
    : result (list Matrix.t) :=
  let hasSecondaryX := hasSecondaryX config in
  acc ← forEach collectSource ([], [], []) (Config.sources config);
  let '(yValues, xValues, secondaryXValues) := acc in
  let sortedY := sort yValues in
  let sortedX := sort xValues in
  let sortedSecondaryX := if hasSecondaryX then Some (sort secondaryXValues) else None in
  match sortedSecondaryX with
  | Some ((_ :: _) as sortedSecondaryX) =>
      forEach (λ matrices secX,
          data ← forEach (markSourceSecondary secX sortedY sortedX)
                   (emptyGrid sortedY sortedX) (Config.sources config);
          Ok (matrices ++
                [ {| Matrix.name := Config.name config +:+ " - " +:+ secX;
                     Matrix.yAxis := sortedY;
                     Matrix.xAxis := sortedX;
                     Matrix.data := data |} ]))
        matrices sortedSecondaryX
  | _ =>
      data ← forEach (markSource sortedY sortedX)
               (emptyGrid sortedY sortedX) (Config.sources config);
      Ok (matrices ++
            [ {| Matrix.name := Config.name config;
                 Matrix.yAxis := sortedY;
                 Matrix.xAxis := sortedX;
                 Matrix.data := data |} ])
  end.

(** ** Independent mode (lines 260 to 339) *)

(** The matrices of one resolved sheet. *)
Definition sheetMatrices (source : Source.t) (sheet : Sheet.t)
    (matrices : list Matrix.t) : list Matrix.t :=
  let yCol := selected columnSelections source Selection.yAxis in
  let xCol := selected columnSelections source Selection.xAxis in
  let secondaryXCol := selected columnSelections source Selection.secondaryXAxis in
  let '(yValues, xValues, secondaryXValues) :=
    foldl (collectRowIndependent yCol xCol secondaryXCol)
      ([], [], if col_truthy secondaryXCol then Some [] else None)
      (Sheet.data sheet) in
  let sortedY := sort yValues in
  let sortedX := sort xValues in
  let sortedSecondaryX := sort <$> secondaryXValues in
  match sortedSecondaryX with
  | Some ((_ :: _) as sortedSecondaryX) =>
      foldl (λ matrices secX,
          matrices ++
            [ {| Matrix.name :=
                   Source.fileName source +:+ " - " +:+ Source.sheetName source
                     +:+ " - " +:+ secX;
                 Matrix.yAxis := sortedY;
                 Matrix.xAxis := sortedX;
                 Matrix.data :=
                   foldl (markRowSecondary yCol xCol secondaryXCol secX sortedY sortedX)
                     (emptyGrid sortedY sortedX) (Sheet.data sheet) |} ])
        matrices sortedSecondaryX
  | _ =>
      matrices ++
        [ {| Matrix.name :=
               Source.fileName source +:+ " - " +:+ Source.sheetName source;
             Matrix.yAxis := sortedY;
             Matrix.xAxis := sortedX;
             Matrix.data :=
               foldl (markRow yCol xCol sortedY sortedX)
                 (emptyGrid sortedY sortedX) (Sheet.data sheet) |} ]
  end.

(** Body of the loop over the sources of an independent configuration. *)
Definition computeSource (matrices : list Matrix.t) (source : Source.t)
    : result (list Matrix.t) :=
  sheet ← findSheet fileData source;
  match sheet with
  | None => Ok matrices
  | Some sheet => Ok (sheetMatrices source sheet matrices)
  end.

(** Body of [matrixConfig.forEach]. *)
Definition computeConfig (matrices : list Matrix.t) (config : Config.t)
    : result (list Matrix.t) :=
  if Config.merge config
  then computeMerged config matrices
  else forEach computeSource matrices (Config.sources config).

End compute.

(** [computeMatrices(fileData, selectedTabs, columnSelections, matrixConfig)];
    [selectedTabs] is not read. *)
Definition computeMatrices (fileData : list File.t)
    (selectedTabs : gmap string (list string))
    (columnSelections : gmap string Selection.t)
    (matrixConfig : list Config.t) : result (list Matrix.t) :=
  forEach (computeConfig fileData columnSelections) [] matrixConfig.

(** ** Scenario A of the specification *)

Definition scenarioA_rows : list row :=
  [ {[ "Emp" := VStr "Alice"; "Role" := VStr "Admin" ]};
    {[ "Emp" := VStr "Bob"; "Role" := VStr "Admin" ]};
    {[ "Emp" := VStr "Alice"; "Role" := VStr "Editor" ]} ].

Definition scenarioA_files : list File.t :=
  [ {| File.fileName := "staff.xlsx";
       File.sheets :=
         [ {| Sheet.name := "Roles"; Sheet.headers := ["Emp"; "Role"];
              Sheet.data := scenarioA_rows |} ] |} ].

Definition scenarioA_source : Source.t :=
  {| Source.fileIndex := 0; Source.sheetName := "Roles";
     Source.fileName := "staff.xlsx" |}.

Definition scenarioA_selections : gmap string Selection.t :=
  {[ "0-Roles" := {| Selection.yAxis := Some "Emp"; Selection.xAxis := Some "Role";
                     Selection.secondaryXAxis := None |} ]}.

Definition scenarioA_config : Config.t :=
  {| Config.name := "staff - Roles"; Config.sources := [scenarioA_source];
     Config.merge := false |}.


(** ** Reading a grid *)

(** [data[i][j]], [None] outside the grid. *)
Definition cell (data : list (list Z)) (i j : nat) : option Z :=
  data !! i ≫= λ cells, cells !! j.

(** A grid of [ny] rows of [nx] cells, each 0 or 1. *)
Definition grid_ok (ny nx : nat) (data : list (list Z)) : Prop :=
  length data = ny ∧
  Forall (λ cells, length cells = nx ∧ Forall (λ c, c = 0 ∨ c = 1) cells) data.

(** ** What the rows contribute *)

(** The pair of trimmed Y and X values of each row, in row order. *)
Definition rowHits (yCol xCol : option string) (rows : list row)
    : list (string * string) :=
  (λ r, (cellValue r yCol, cellValue r xCol)) <$> rows.

(** The same for the rows whose secondary value is [secX]. *)
Definition rowHitsSecondary (yCol xCol secondaryXCol : option string)
    (secX : string) (rows : list row) : list (string * string) :=
  rowHits yCol xCol (filter (λ r, secondaryValue r secondaryXCol = Some secX) rows).

(** The marking of one pair of values. *)
Definition markHit (sortedY sortedX : list string) (data : list (list Z))
    (hit : string * string) : list (list Z) :=
  if str_truthy hit.1 && str_truthy hit.2
  then markIntersection sortedY sortedX data hit.1 hit.2
  else data.

(** [if (v) set.add(v)] for a value that may be [null]. *)
Definition add_value (v : option string) (s : list string) : list string :=
  match v with
  | Some v => add_truthy v s
  | None => s
  end.

(** The values a loop adds to a set, then the set after the loop. *)
Definition collect (s : list string) (values : list (option string)) : list string :=
  foldl (λ s v, add_value v s) s values.

Definition columnValues (col : option string) (rows : list row)
    : list (option string) :=
  (λ r, Some (cellValue r col)) <$> rows.

Definition secondaryValues (secondaryXCol : option string) (rows : list row)
    : list (option string) :=
  (λ r, secondaryValue r secondaryXCol) <$> rows.

(** The rows a source contributes: those of its sheet, none when the sheet
    is not found. *)
Definition sourceRows (fileData : list File.t) (source : Source.t) : list row :=
  match findSheet fileData source with
  | Ok (Some sheet) => Sheet.data sheet
  | _ => []
  end.

(** A source resolves when its file exists: reading its sheet does not
    raise. *)
Definition resolves (fileData : list File.t) (source : Source.t) : Prop :=
  is_Some (fileData !! Source.fileIndex source).

Section contributions.
Context (fileData : list File.t) (columnSelections : gmap string Selection.t).

Definition yColOf (source : Source.t) : option string :=
  selected columnSelections source Selection.yAxis.
Definition xColOf (source : Source.t) : option string :=
  selected columnSelections source Selection.xAxis.
Definition secondaryXColOf (source : Source.t) : option string :=
  selected columnSelections source Selection.secondaryXAxis.

(** The sorted axes and secondary values of the rows of a list of sources. *)
Definition axisY (sources : list Source.t) : list string :=
  sort (collect []
    (sources ≫= λ source, columnValues (yColOf source) (sourceRows fileData source))).
Definition axisX (sources : list Source.t) : list string :=
  sort (collect []
    (sources ≫= λ source, columnValues (xColOf source) (sourceRows fileData source))).
Definition axisSecondary (sources : list Source.t) : list string :=
  sort (collect []
    (sources ≫= λ source,
       secondaryValues (secondaryXColOf source) (sourceRows fileData source))).

(** The pairs of values the rows of a list of sources contribute. *)
Definition hits (sources : list Source.t) : list (string * string) :=
  sources ≫= λ source,
    rowHits (yColOf source) (xColOf source) (sourceRows fileData source).
Definition hitsSecondary (secX : string) (sources : list Source.t)
    : list (string * string) :=
  sources ≫= λ source,
    rowHitsSecondary (yColOf source) (xColOf source) (secondaryXColOf source) secX
      (sourceRows fileData source).

(** The grid over the axes of [sources] marked with a list of pairs. *)
Definition gridOf (sources : list Source.t) (marked : list (string * string))
    : list (list Z) :=
  foldl (markHit (axisY sources) (axisX sources))
    (emptyGrid (axisY sources) (axisX sources)) marked.

(** The matrix named [name] over the axes of [sources] marked with a list of
    pairs. *)
Definition matrixOf (name : string) (sources : list Source.t)
    (marked : list (string * string)) : Matrix.t :=
  {| Matrix.name := name;
     Matrix.yAxis := axisY sources;
     Matrix.xAxis := axisX sources;
     Matrix.data := gridOf sources marked |}.

(** The matrices of a merged configuration whose sources resolve. *)
Definition mergedOutput (config : Config.t) : list Matrix.t :=
  let sources := Config.sources config in
  if hasSecondaryX columnSelections config
     && bool_decide (axisSecondary sources ≠ [])
  then (λ secX, matrixOf (Config.name config +:+ " - " +:+ secX) sources
                  (hitsSecondary secX sources)) <$> axisSecondary sources
  else [ matrixOf (Config.name config) sources (hits sources) ].

(** The matrices of a source of an independent configuration whose sheet is
    found. *)
Definition sourceOutput (source : Source.t) : list Matrix.t :=
  if col_truthy (secondaryXColOf source)
     && bool_decide (axisSecondary [source] ≠ [])
  then (λ secX,
          matrixOf (Source.fileName source +:+ " - " +:+ Source.sheetName source
                      +:+ " - " +:+ secX)
            [source] (hitsSecondary secX [source])) <$> axisSecondary [source]
  else [ matrixOf (Source.fileName source +:+ " - " +:+ Source.sheetName source)
           [source] (hits [source]) ].

(** The matrices of an independent configuration whose sources resolve:
    those of the sources whose sheet is found, in source order. *)
Definition independentOutput (config : Config.t) : list Matrix.t :=
  Config.sources config ≫= λ source,
    match findSheet fileData source with
    | Ok (Some _) => sourceOutput source
    | _ => []
    end.

Definition configOutput (config : Config.t) : list Matrix.t :=
  if Config.merge config then mergedOutput config else independentOutput config.

End contributions.

(** Every source of every configuration resolves. *)
Definition all_resolve (fileData : list File.t) (matrixConfig : list Config.t) : Prop :=
  Forall (λ config, Forall (resolves fileData) (Config.sources config)) matrixConfig.

(** ** Well-formed matrices *)

(** An axis: no empty label, no label twice, labels in ascending order. *)
Definition axis_ok (axis : list string) : Prop :=
  (EmptyString ∉ axis) ∧ NoDup axis ∧ Sorted String.le axis.


(** The grid invariant: as many rows of cells as Y labels, as many cells in
    each as X labels, every cell 0 or 1. *)
Definition cells_ok (m : Matrix.t) : Prop :=
  length (Matrix.data m) = length (Matrix.yAxis m) ∧
  Forall (λ cells, length cells = length (Matrix.xAxis m) ∧
                   Forall (λ c, c = 0 ∨ c = 1) cells) (Matrix.data m).

(** A sheet yields no split by the secondary axis: no secondary column is
    selected for its source, or no row has a non-empty trimmed value in it. *)
Definition no_secondary_split (columnSelections : gmap string Selection.t)
    (source : Source.t) (sheet : Sheet.t) : Prop :=
  col_truthy (secondaryXColOf columnSelections source) = false ∨
  Forall (λ r, cellValue r (secondaryXColOf columnSelections source) = EmptyString)
    (Sheet.data sheet).

(** The matrix of Scenario A. *)
Definition scenarioA_matrix : Matrix.t :=
  {| Matrix.name := "staff.xlsx - Roles";
     Matrix.yAxis := ["Alice"; "Bob"];
     Matrix.xAxis := ["Admin"; "Editor"];
     Matrix.data := [[1; 1]; [1; 0]] |}.

(** ** A merged scenario with a source that has no secondary axis *)

Definition scenarioB_files : list File.t :=
  [ {| File.fileName := "staff.xlsx";
       File.sheets :=
         [ {| Sheet.name := "Roles"; Sheet.headers := ["Emp"; "Role"; "Dept"];
              Sheet.data :=
                [ {[ "Emp" := VStr "Alice"; "Role" := VStr "Admin";
                     "Dept" := VStr "HR" ]};
                  {[ "Emp" := VStr "Bob"; "Role" := VStr "Admin";
                     "Dept" := VStr "HR" ]};
                  {[ "Emp" := VStr "Alice"; "Role" := VStr "Editor";
                     "Dept" := VStr "Eng" ]} ] |};
           {| Sheet.name := "Extra"; Sheet.headers := ["Emp"; "Role"];
              Sheet.data :=
                [ {[ "Emp" := VStr "Carol"; "Role" := VStr "Admin" ]} ] |} ] |} ].

Definition scenarioB_roles : Source.t :=
  {| Source.fileIndex := 0; Source.sheetName := "Roles";
     Source.fileName := "staff.xlsx" |}.

Definition scenarioB_extra : Source.t :=
  {| Source.fileIndex := 0; Source.sheetName := "Extra";
     Source.fileName := "staff.xlsx" |}.

Definition scenarioB_selections : gmap string Selection.t :=
  {[ "0-Roles" := {| Selection.yAxis := Some "Emp"; Selection.xAxis := Some "Role";
                     Selection.secondaryXAxis := Some "Dept" |};
     "0-Extra" := {| Selection.yAxis := Some "Emp"; Selection.xAxis := Some "Role";
                     Selection.secondaryXAxis := None |} ]}.

Definition scenarioB_config : Config.t :=
  {| Config.name := "All"; Config.sources := [scenarioB_roles; scenarioB_extra];
     Config.merge := true |}.

Definition scenarioB_matrices : list Matrix.t :=
  [ {| Matrix.name := "All - Eng";
       Matrix.yAxis := ["Alice"; "Bob"; "Carol"];
       Matrix.xAxis := ["Admin"; "Editor"];
       Matrix.data := [[0; 1]; [0; 0]; [0; 0]] |};
    {| Matrix.name := "All - HR";
       Matrix.yAxis := ["Alice"; "Bob"; "Carol"];
       Matrix.xAxis := ["Admin"; "Editor"];
       Matrix.data := [[1; 0]; [1; 0]; [0; 0]] |} ].

(** ** Sheets that differ by the order of their rows *)

Definition sheet_permuted (s s' : Sheet.t) : Prop :=
  Sheet.name s = Sheet.name s' ∧ Sheet.headers s = Sheet.headers s' ∧
  Sheet.data s ≡ₚ Sheet.data s'.

Definition file_permuted (f f' : File.t) : Prop :=
  File.fileName f = File.fileName f' ∧
  Forall2 sheet_permuted (File.sheets f) (File.sheets f').

(** The same files with the same sheets, the rows of each sheet permuted. *)
Definition rows_permuted (fileData fileData' : list File.t) : Prop :=
  Forall2 file_permuted fileData fileData'.

(** Scenario A with the rows of its sheet in reverse order. *)
Definition scenarioA_files_reversed : list File.t :=
  [ {| File.fileName := "staff.xlsx";
       File.sheets :=
         [ {| Sheet.name := "Roles"; Sheet.headers := ["Emp"; "Role"];
              Sheet.data := reverse scenarioA_rows |} ] |} ].

(** A configuration without sources, and the matrix without labels. *)
Definition empty_config (name : string) (merge : bool) : Config.t :=
  {| Config.name := name; Config.sources := []; Config.merge := merge |}.

Definition degenerate_matrix (name : string) : Matrix.t :=
  {| Matrix.name := name; Matrix.yAxis := []; Matrix.xAxis := []; Matrix.data := [] |}.

(** ** Inputs on which the code departs from the specification *)

(** A sheet with the number 0 in the column of the Y axis. *)
Definition zero_files : list File.t :=
  [ {| File.fileName := "levels.xlsx";
       File.sheets :=
         [ {| Sheet.name := "Levels"; Sheet.headers := ["Level"; "Role"];
              Sheet.data := [ {[ "Level" := VNum 0; "Role" := VStr "Admin" ]} ] |} ] |} ].

Definition zero_source : Source.t :=
  {| Source.fileIndex := 0; Source.sheetName := "Levels";
     Source.fileName := "levels.xlsx" |}.

Definition zero_selections : gmap string Selection.t :=
  {[ "0-Levels" := {| Selection.yAxis := Some "Level"; Selection.xAxis := Some "Role";
                      Selection.secondaryXAxis := None |} ]}.

Definition zero_config : Config.t :=
  {| Config.name := "levels - Levels"; Config.sources := [zero_source];
     Config.merge := false |}.

(** A source whose file index is past the end of [fileData], and one whose
    sheet name is not in its file. *)
Definition stale_file_source : Source.t :=
  {| Source.fileIndex := 1; Source.sheetName := "Roles";
     Source.fileName := "removed.xlsx" |}.

Definition stale_sheet_source : Source.t :=
  {| Source.fileIndex := 0; Source.sheetName := "Renamed";
     Source.fileName := "staff.xlsx" |}.

Definition stale_config (stale : Source.t) (merge : bool) : Config.t :=
  {| Config.name := "staff - Roles"; Config.sources := [scenarioA_source; stale];
     Config.merge := merge |}.




(** ** Sources whose sheet is not found *)

(** The file of the source exists and has no sheet of its name. *)
Definition sheetMissing (fileData : list File.t) (source : Source.t) : bool :=
  match findSheet fileData source with
  | Ok None => true
  | _ => false
  end.

(** The configuration without the sources whose sheet is not found. *)
Definition dropMissing (fileData : list File.t) (config : Config.t) : Config.t :=
  {| Config.name := Config.name config;
     Config.sources :=
       filter (λ source, sheetMissing fileData source = false) (Config.sources config);
     Config.merge := Config.merge config |}.

(** ** Shapes of configurations and of matrices *)

(** A configuration with one source. *)
Definition single_config (name : string) (source : Source.t) (merge : bool)
    : Config.t :=
  {| Config.name := name; Config.sources := [source]; Config.merge := merge |}.

(** A matrix without its name. *)
Definition contentOf (m : Matrix.t) : list string * list string * list (list Z) :=
  (Matrix.yAxis m, Matrix.xAxis m, Matrix.data m).

(** ** Sheets with the same set of rows *)

Definition sheet_same_rows (s s' : Sheet.t) : Prop :=
  Sheet.name s = Sheet.name s' ∧ Sheet.headers s = Sheet.headers s' ∧
  ∀ r, r ∈ Sheet.data s ↔ r ∈ Sheet.data s'.

Definition file_same_rows (f f' : File.t) : Prop :=
  File.fileName f = File.fileName f' ∧
  Forall2 sheet_same_rows (File.sheets f) (File.sheets f').

(** The same files with the same sheets, each sheet with the same rows up to
    order and repetition. *)
Definition rows_same_set (fileData fileData' : list File.t) : Prop :=
  Forall2 file_same_rows fileData fileData'.

(** Scenario A with every row of its sheet given twice. *)
Definition scenarioA_files_repeated : list File.t :=
  [ {| File.fileName := "staff.xlsx";
       File.sheets :=
         [ {| Sheet.name := "Roles"; Sheet.headers := ["Emp"; "Role"];
              Sheet.data := scenarioA_rows ++ scenarioA_rows |} ] |} ].

(** ** Trimmed strings *)

(** A string that [trim] leaves as it is: it neither starts nor ends with
    white space. *)
Definition trimmed (s : string) : Prop := trim s = s.

(** The string is empty or starts with a character that is not white space. *)
Definition starts_clean (s : string) : Prop :=
  match s with
  | EmptyString => True
  | String c _ => is_white_space c = false
  end.

(** Every label of the matrix is trimmed. *)
Definition labels_trimmed (m : Matrix.t) : Prop :=
  Forall trimmed (Matrix.yAxis m) ∧ Forall trimmed (Matrix.xAxis m).

(** ** [exportToExcel] (lines 346 to 380)

    The tables and sheet names handed to the spreadsheet library; the
    library calls themselves and the time stamp of the file name are outside
    the model. *)

(** [l.forEach((a, i) => body)] *)
Fixpoint forEachIndexed {A St : Type} (body : St → A → nat → result St)
    (i : nat) (s : St) (l : list A) : result St :=
  match l with
  | [] => Ok s
  | a :: l' => s' ← body s a i; forEachIndexed body (S i) s' l'
  end.

(** [['', ...matrix.xAxis]] *)
Definition headerRow (matrix : Matrix.t) : list value :=
  VStr EmptyString :: (VStr <$> Matrix.xAxis matrix).

(** [[yVal, ...cells]] *)
Definition dataRow (yVal : string) (cells : list Z) : list value :=
  VStr yVal :: (VNum <$> cells).

(** The rows of the table of a matrix (lines 351 to 358); spreading
    [matrix.data[yIdx]] raises when it is [undefined]. *)
Definition exportRows (matrix : Matrix.t) : result (list (list value)) :=
  forEachIndexed (λ rows yVal yIdx,
      match Matrix.data matrix !! yIdx with
      | None => TypeError
      | Some cells => Ok (rows ++ [dataRow yVal cells])
      end)
    0%nat [headerRow matrix] (Matrix.yAxis matrix).



Module Worksheet.
Record t : Type := { name : string; rows : list (list value); cols : list Z }.
End Worksheet.




(** ** Sheets that agree on the selected columns *)

(** Two rows give the same trimmed values in the columns selected for a
    source. *)
Definition rows_agree (columnSelections : gmap string Selection.t)
    (source : Source.t) (r r' : row) : Prop :=
  cellValue r (yColOf columnSelections source)
  = cellValue r' (yColOf columnSelections source) ∧
  cellValue r (xColOf columnSelections source)
  = cellValue r' (xColOf columnSelections source) ∧
  secondaryValue r (secondaryXColOf columnSelections source)
  = secondaryValue r' (secondaryXColOf columnSelections source).

(** The sheet of a source is found in both lists of files or in none, and
    the rows found agree one by one on the columns selected for the source. *)
Definition sheets_agree (columnSelections : gmap string Selection.t)
    (fileData fileData' : list File.t) (source : Source.t) : Prop :=
  match findSheet fileData source, findSheet fileData' source with
  | Ok (Some sheet), Ok (Some sheet') =>
      Forall2 (rows_agree columnSelections source)
        (Sheet.data sheet) (Sheet.data sheet')
  | Ok None, Ok None => True
  | TypeError, TypeError => True
  | _, _ => False
  end.

(** Scenario A as another parser could deliver it: another file name,
    padded texts, a number for a text and a further column. *)
Definition scenarioA_files_raw : list File.t :=
  [ {| File.fileName := "staff (copy).xlsx";
       File.sheets :=
         [ {| Sheet.name := "Roles"; Sheet.headers := ["Emp"; "Role"; "Since"];
              Sheet.data :=
                [ {[ "Emp" := VStr " Alice"; "Role" := VStr "Admin ";
                     "Since" := VNum 2019 ]};
                  {[ "Emp" := VStr "Bob"; "Role" := VStr "Admin";
                     "Since" := VNum 2020 ]};
                  {[ "Emp" := VStr "Alice  "; "Role" := VStr "Editor";
                     "Since" := VStr EmptyString ]} ] |} ] |} ].

(** ** Configurations that differ in names that are not read *)

(** Two sources name the same sheet of the same file. *)
Definition source_same_place (source source' : Source.t) : Prop :=
  Source.fileIndex source = Source.fileIndex source' ∧
  Source.sheetName source = Source.sheetName source'.

(** Two configurations of the same mode: merged ones with the same name and
    sources of the same places, independent ones with the same sources. *)
Definition config_same_use (config config' : Config.t) : Prop :=
  Config.merge config = Config.merge config' ∧
  if Config.merge config
  then Config.name config = Config.name config' ∧
       Forall2 source_same_place (Config.sources config) (Config.sources config')
  else Config.sources config = Config.sources config'.

(** Scenario B with the file names of the sources replaced. *)
Definition scenarioB_config_unnamed : Config.t :=
  {| Config.name := Config.name scenarioB_config;
     Config.sources :=
       (λ source, {| Source.fileIndex := Source.fileIndex source;
                     Source.sheetName := Source.sheetName source;
                     Source.fileName := "?" |}) <$> Config.sources scenarioB_config;
     Config.merge := true |}.

(** Scenario A with the configuration renamed. *)
Definition scenarioA_config_renamed : Config.t :=
  {| Config.name := "Roles of the staff";
     Config.sources := Config.sources scenarioA_config;
     Config.merge := false |}.

(** ** [processFiles]: the rows of a sheet (lines 117 to 125)

    [jsonData] is the sheet as the spreadsheet library returns it, an array
    of arrays of cells with the header cells first.  The model gives the
    own properties of the row objects. *)

(** [row[idx]] on an array *)
Definition array_get (cells : list value) (idx : nat) : value :=
  default VUndefined (cells !! idx).

(** [obj[header] = row[idx] || ''].  The header is converted to a property
    key; the assignment of a primitive value to the key [__proto__] of a
    plain object creates no property. *)
Definition assignCell (cells : list value) (obj : row) (header : value) (idx : nat)
    : row :=
  if bool_decide (js_String header = "__proto__") then obj
  else <[js_String header := js_or (array_get cells idx) (VStr EmptyString)]> obj.

(** [headers.forEach((header, idx) => { obj[header] = row[idx] || '' })]
    from the index [idx] on. *)
Fixpoint assignCells (cells : list value) (idx : nat) (obj : row)
    (headers : list value) : row :=
  match headers with
  | [] => obj
  | header :: headers' =>
      assignCells cells (S idx) (assignCell cells obj header idx) headers'
  end.

(** The object built for one row of cells. *)
Definition buildRow (headers cells : list value) : row :=
  assignCells cells 0%nat ∅ headers.

(** [jsonData.slice(1).map(row => ...)] when [jsonData.length > 0]; a sheet
    without any row is not kept. *)
Definition sheetRows (jsonData : list (list value)) : option (list row) :=
  match jsonData with
  | [] => None
  | headers :: rows => Some (buildRow headers <$> rows)
  end.

(** No header from the index [idx] on has the property key [key]. *)
Definition last_header (headers : list value) (idx : nat) (key : string) : Prop :=
  ∀ idx' header', (idx < idx')%nat → headers !! idx' = Some header' →
    js_String header' ≠ key.

(** ** Plain objects and strings of the components *)

(** A plain object whose keys are not array indices, as the list of its
    properties in the order of their creation. *)
Definition obj_get {V : Type} (o : list (string * V)) (key : string) : option V :=
  snd <$> List.find (λ kv, bool_decide (kv.1 = key)) o.

(** [{...o, [key]: v}]: a property that exists keeps its place. *)
Fixpoint obj_set {V : Type} (o : list (string * V)) (key : string) (v : V)
    : list (string * V) :=
  match o with
  | [] => [(key, v)]
  | (k, w) :: o' =>
      if bool_decide (k = key) then (k, v) :: o' else (k, w) :: obj_set o' key v
  end.

(** [s.split(sep)] for a separator of one character *)
Fixpoint split (sep : ascii) (s : string) : list string :=
  match s with
  | EmptyString => [EmptyString]
  | String c s' =>
      if Ascii.eqb c sep then EmptyString :: split sep s'
      else match split sep s' with
           | piece :: pieces => String c piece :: pieces
           | [] => [String c EmptyString]
           end
  end.

(** The character [c] occurs in [s]. *)
Fixpoint has_char (c : ascii) (s : string) : bool :=
  match s with
  | EmptyString => false
  | String c' s' => Ascii.eqb c' c || has_char c s'
  end.

(** [`${fileIndex}-${sheetName}`] *)
Definition tab_key (fileIndex : nat) (sheetName : string) : string :=
  pretty fileIndex +:+ "-" +:+ sheetName.

(** ** [TabSelector] (lines 4 to 35)

    [selectedTabs], the state of the component, is an object from the keys
    of the tabs to booleans. *)

Module TabSelector.

(** [setSelectedTabs(prev => ({...prev, [key]: !prev[key]}))] *)
Definition handleTabToggle (fileIndex : nat) (sheetName : string)
    (prev : list (string * bool)) : list (string * bool) :=
  let key := tab_key fileIndex sheetName in
  obj_set prev key (negb (default false (obj_get prev key))).

(** The body of the loop over the keys of [selectedTabs] (lines 18 to 25). *)
Definition selectTab (selected : gmap string (list string)) (entry : string * bool)
    : gmap string (list string) :=
  if entry.2 then
    match split "-" entry.1 with
    | fileIndex :: rest =>
        let sheetName := String.concat "-" rest in
        <[fileIndex := default [] (selected !! fileIndex) ++ [sheetName]]> selected
    | [] => selected
    end
  else selected.

(** [handleContinue]: the object handed to [onTabsSelected], or [None] after
    the alert. *)
Definition handleContinue (selectedTabs : list (string * bool))
    : option (gmap string (list string)) :=
  let selected := foldl selectTab ∅ selectedTabs in
  let hasSelection := bool_decide (map_Exists (λ _ tabs, (0 < length tabs)%nat) selected) in
  if hasSelection then Some selected else None.

(** The state after a sequence of clicks on tabs, from the initial state. *)
Definition clicked (clicks : list (nat * string)) : list (string * bool) :=
  foldl (λ prev tab, handleTabToggle tab.1 tab.2 prev) [] clicks.

End TabSelector.

(** The tab was clicked an odd number of times. *)
Definition odd_clicks (clicks : list (nat * string)) (tab : nat * string) : bool :=
  Nat.odd (length (filter (λ tab', tab' = tab) clicks)).

(** ** [ColumnSelector] (lines 4 to 42)

    [selections], the state of the component, is the object that becomes
    [columnSelections]: only its properties are read, never their order. *)

Module ColumnSelector.

(** The names of the fields of a selection. *)
Inductive field : Type := yAxis | xAxis | secondaryXAxis.

Global Instance field_eq_dec : EqDecision field.
Proof. solve_decision. Defined.

(** [selection[field]] *)
Definition get (f : field) (selection : Selection.t) : option string :=
  match f with
  | yAxis => Selection.yAxis selection
  | xAxis => Selection.xAxis selection
  | secondaryXAxis => Selection.secondaryXAxis selection
  end.

(** [{...selection, [field]: value}], where [None] is the value [null] *)
Definition set (f : field) (value : option string) (selection : Selection.t)
    : Selection.t :=
  match f with
  | yAxis =>
      {| Selection.yAxis := value;
         Selection.xAxis := Selection.xAxis selection;
         Selection.secondaryXAxis := Selection.secondaryXAxis selection |}
  | xAxis =>
      {| Selection.yAxis := Selection.yAxis selection;
         Selection.xAxis := value;
         Selection.secondaryXAxis := Selection.secondaryXAxis selection |}
  | secondaryXAxis =>
      {| Selection.yAxis := Selection.yAxis selection;
         Selection.xAxis := Selection.xAxis selection;
         Selection.secondaryXAxis := value |}
  end.

(** [{...undefined}]: a selection without any field *)
Definition noSelection : Selection.t :=
  {| Selection.yAxis := None; Selection.xAxis := None;
     Selection.secondaryXAxis := None |}.

(** [setSelections(prev => ({...prev, [key]: {...prev[key], [field]: value}}))] *)
Definition handleSelection (key : string) (f : field) (value : option string)
    (prev : gmap string Selection.t) : gmap string Selection.t :=
  <[key := set f value (default noSelection (prev !! key))]> prev.

(** [!selection || !selection.yAxis || !selection.xAxis] *)
Definition incomplete (selection : option Selection.t) : bool :=
  match selection with
  | None => true
  | Some selection =>
      negb (col_truthy (Selection.yAxis selection))
      || negb (col_truthy (Selection.xAxis selection))
  end.

(** [handleContinue]: the selections handed to [onColumnsSelected], or [None]
    after the alert. *)
Definition handleContinue (selectedTabs : gmap string (list string))
    (selections : gmap string Selection.t) : option (gmap string Selection.t) :=
  if forallb (λ entry,
         forallb (λ sheetName,
             negb (incomplete (selections !! (entry.1 +:+ "-" +:+ sheetName))))
           entry.2)
       (map_to_list selectedTabs)
  then Some selections else None.

(** The selections after a sequence of choices in the lists of columns, from
    the initial state. *)
Definition chosen (choices : list (string * field * option string))
    : gmap string Selection.t :=
  foldl (λ prev choice, handleSelection choice.1.1 choice.1.2 choice.2 prev)
    ∅ choices.

End ColumnSelector.

(** The value of the last choice made for a field of a key; [None] when
    there is none or it is [null]. *)
Definition last_choice (choices : list (string * ColumnSelector.field * option string))
    (key : string) (f : ColumnSelector.field) : option string :=
  last (filter (λ choice, choice.1 = (key, f)) choices) ≫= snd.

(** ** [MatrixConfigurator] (lines 4 to 129)

    [selectedTabs] is the object handed on by [TabSelector]: its keys are
    file indices, and it is given by the list of its entries in the order of
    [Object.keys].  [configs], the state of the component, is the array that
    becomes [matrixConfig]. *)

(** [[^/.]*] up to the end of the text *)
Fixpoint extension_chars (s : string) : bool :=
  match s with
  | EmptyString => true
  | String c s' => negb (Ascii.eqb c "/" || Ascii.eqb c ".") && extension_chars s'
  end.

(** [s.replace(/\.[^/.]+$/, '')]: the text without its last extension. *)
Fixpoint stripExtension (s : string) : string :=
  match s with
  | EmptyString => EmptyString
  | String c s' =>
      if Ascii.eqb c "." && negb (bool_decide (s' = EmptyString)) && extension_chars s'
      then EmptyString
      else String c (stripExtension s')
  end.

Module MatrixConfigurator.

(** A configuration as the component keeps it. *)
Record config : Type :=
  { name : string; sources : list Source.t; merge : bool; hasSecondaryX : bool }.

(** The fields of a configuration that [computeMatrices] reads. *)
Definition toConfig (c : config) : Config.t :=
  {| Config.name := name c; Config.sources := sources c; Config.merge := merge c |}.

Section handlers.
Context (fileData : list File.t) (selectedTabs : list (nat * list string)).
Context (columnSelections : gmap string Selection.t).

(** [Object.keys(selectedTabs).forEach(fileIndex =>
       selectedTabs[fileIndex].forEach(sheetName => body))] *)
Definition forEachTab {St : Type} (body : St → nat → string → result St) (s : St)
    : result St :=
  forEach (λ s entry, forEach (λ s sheetName, body s entry.1 sheetName) s entry.2)
    s selectedTabs.

(** [{ fileIndex: parseInt(fileIndex), sheetName: sheetName,
        fileName: fileData[parseInt(fileIndex)].fileName }] *)
Definition sourceOf (fileIndex : nat) (sheetName : string) : result Source.t :=
  match fileData !! fileIndex with
  | None => TypeError
  | Some file =>
      Ok {| Source.fileIndex := fileIndex; Source.sheetName := sheetName;
            Source.fileName := File.fileName file |}
  end.

(** The configurations set by the effect of the first rendering (lines 7 to
    27). *)
Definition initialConfigs : result (list config) :=
  forEachTab (λ initialConfigs fileIndex sheetName,
      match columnSelections !! tab_key fileIndex sheetName with
      | None => Ok initialConfigs
      | Some selection =>
          source ← sourceOf fileIndex sheetName;
          Ok (initialConfigs ++
                [ {| name := stripExtension (Source.fileName source)
                               +:+ " - " +:+ sheetName;
                     sources := [source];
                     merge := false;
                     hasSecondaryX :=
                       col_truthy (Selection.secondaryXAxis selection) |} ])
      end) [].

(** [setConfigs(prev => prev.map((config, idx) =>
       idx === index ? { ...config, merge: !config.merge } : config))] *)
Definition handleToggleMerge (index : nat) (prev : list config) : list config :=
  alter (λ c, {| name := name c; sources := sources c; merge := negb (merge c);
                 hasSecondaryX := hasSecondaryX c |}) index prev.

(** Lines 35 to 60. *)
Definition handleAddMatrix (prev : list config) : result (list config) :=
  availableSources ←
    forEachTab (λ availableSources fileIndex sheetName,
        match columnSelections !! tab_key fileIndex sheetName with
        | None => Ok availableSources
        | Some _ =>
            source ← sourceOf fileIndex sheetName;
            Ok (availableSources ++ [source])
        end) [];
  match availableSources with
  | [] => Ok prev
  | firstSource :: _ =>
      Ok (prev ++
            [ {| name := "Matrix " +:+ pretty (length prev + 1)%nat;
                 sources := [firstSource];
                 merge := false;
                 hasSecondaryX :=
                   col_truthy (selected columnSelections firstSource
                                 Selection.secondaryXAxis) |} ])
  end.

(** [setConfigs(prev => prev.filter((_, idx) => idx !== index))] *)
Definition handleRemoveMatrix (index : nat) (prev : list config) : list config :=
  delete index prev.

(** [s.fileIndex === source.fileIndex && s.sheetName === source.sheetName] *)
Definition same_place (s source : Source.t) : bool :=
  bool_decide (Source.fileIndex s = Source.fileIndex source)
  && bool_decide (Source.sheetName s = Source.sheetName source).

(** Lines 66 to 100; reading [currentConfig.sources] raises when there is no
    configuration at [matrixIndex].  Events are handled one at a time, so
    the [configs] the handler reads and the [prev] it updates are the same
    state. *)
Definition handleAddSource (matrixIndex : nat) (configs : list config)
    : result (list config) :=
  let currentConfig := configs !! matrixIndex in
  availableSources ←
    forEachTab (λ availableSources fileIndex sheetName,
        match columnSelections !! tab_key fileIndex sheetName with
        | None => Ok availableSources
        | Some _ =>
            source ← sourceOf fileIndex sheetName;
            match currentConfig with
            | None => TypeError
            | Some current =>
                let exists_ := existsb (λ s, same_place s source) (sources current) in
                if exists_ then Ok availableSources
                else Ok (availableSources ++ [source])
            end
        end) [];
  match availableSources, currentConfig with
  | newSource :: _, Some current =>
      let hasSecondaryX' :=
        col_truthy (selected columnSelections newSource Selection.secondaryXAxis)
        || hasSecondaryX current in
      Ok (alter (λ c, {| name := name c; sources := sources c ++ [newSource];
                         merge := merge c; hasSecondaryX := hasSecondaryX' |})
            matrixIndex configs)
  | _, _ => Ok configs
  end.

(** Lines 102 to 108. *)
Definition handleRemoveSource (matrixIndex sourceIndex : nat) (prev : list config)
    : list config :=
  alter (λ c, {| name := name c; sources := delete sourceIndex (sources c);
                 merge := merge c; hasSecondaryX := hasSecondaryX c |})
    matrixIndex prev.

(** Lines 110 to 114. *)
Definition handleNameChange (index : nat) (newName : string) (prev : list config)
    : list config :=
  alter (λ c, {| name := newName; sources := sources c; merge := merge c;
                 hasSecondaryX := hasSecondaryX c |}) index prev.

(** [handleContinue]: the configurations handed to [onConfigComplete], or
    [None] after an alert. *)
Definition handleContinue (configs : list config) : option (list config) :=
  if bool_decide (length configs = 0%nat) then None
  else
    let invalid := existsb (λ c, bool_decide (length (sources c) = 0%nat)) configs in
    if invalid then None else Some configs.

(** The events of the component. *)
Inductive action : Type :=
| ToggleMerge (index : nat)
| AddMatrix
| RemoveMatrix (index : nat)
| AddSource (matrixIndex : nat)
| RemoveSource (matrixIndex sourceIndex : nat)
| NameChange (index : nat) (newName : string).

Definition handle (configs : list config) (a : action) : result (list config) :=
  match a with
  | ToggleMerge index => Ok (handleToggleMerge index configs)
  | AddMatrix => handleAddMatrix configs
  | RemoveMatrix index => Ok (handleRemoveMatrix index configs)
  | AddSource matrixIndex => handleAddSource matrixIndex configs
  | RemoveSource matrixIndex sourceIndex =>
      Ok (handleRemoveSource matrixIndex sourceIndex configs)
  | NameChange index newName => Ok (handleNameChange index newName configs)
  end.

(** The event can be raised on the rendering of [configs]: the controls of a
    configuration exist for the configurations of the list, the button that
    removes a configuration when there is more than one, the button that
    removes a source when the configuration has more than one (lines 137 to
    193). *)
Definition offered (configs : list config) (a : action) : bool :=
  match a with
  | ToggleMerge index | AddSource index | NameChange index _ =>
      bool_decide (index < length configs)%nat
  | AddMatrix => true
  | RemoveMatrix index =>
      bool_decide (1 < length configs)%nat && bool_decide (index < length configs)%nat
  | RemoveSource matrixIndex sourceIndex =>
      match configs !! matrixIndex with
      | Some c =>
          bool_decide (1 < length (sources c))%nat
          && bool_decide (sourceIndex < length (sources c))%nat
      | None => false
      end
  end.

(** The state after a sequence of events, from the initial configurations. *)
Definition after (actions : list action) : result (list config) :=
  configs ← initialConfigs; forEach handle configs actions.

(** Every event of the sequence can be raised when its turn comes. *)
Fixpoint all_offered (configs : list config) (actions : list action) : Prop :=
  match actions with
  | [] => True
  | a :: actions' =>
      offered configs a = true ∧
      match handle configs a with
      | Ok configs' => all_offered configs' actions'
      | TypeError => True
      end
  end.

End handlers.

End MatrixConfigurator.

(** A source of a configuration is sound: it names a selected tab that has a
    selection, its file exists and has the name the source records. *)
Definition source_sound (fileData : list File.t)
    (selectedTabs : list (nat * list string))
    (columnSelections : gmap string Selection.t) (source : Source.t) : Prop :=
  (∃ sheetNames, (Source.fileIndex source, sheetNames) ∈ selectedTabs ∧
                 Source.sheetName source ∈ sheetNames) ∧
  is_Some (columnSelections !! key_of source) ∧
  ∃ file, fileData !! Source.fileIndex source = Some file ∧
          Source.fileName source = File.fileName file.

(** Scenario B as it reaches the component. *)
Definition scenarioB_tabs : list (nat * list string) := [ (0%nat, ["Roles"; "Extra"]) ].

(** The sheet a source names. *)
Definition place (source : Source.t) : nat * string :=
  (Source.fileIndex source, Source.sheetName source).

(** Some selected tab has a selection of columns. *)
Definition tab_with_selection (selectedTabs : list (nat * list string))
    (columnSelections : gmap string Selection.t) : Prop :=
  ∃ fileIndex sheetNames sheetName,
    (fileIndex, sheetNames) ∈ selectedTabs ∧ sheetName ∈ sheetNames ∧
    is_Some (columnSelections !! tab_key fileIndex sheetName).

(** There is a configuration whenever there was a first one, and every
    configuration has a source. *)
Definition ready (initial configs : list MatrixConfigurator.config) : Prop :=
  Forall (λ c, (0 < length (MatrixConfigurator.sources c))%nat) configs ∧
  ((0 < length configs)%nat ↔ (0 < length initial)%nat).

(** The first configurations of Scenario B, three events and the
    configurations after them. *)
Definition scenarioB_initial : list MatrixConfigurator.config :=
  [ {| MatrixConfigurator.name := "staff - Roles";
       MatrixConfigurator.sources := [scenarioB_roles];
       MatrixConfigurator.merge := false;
       MatrixConfigurator.hasSecondaryX := true |};
    {| MatrixConfigurator.name := "staff - Extra";
       MatrixConfigurator.sources := [scenarioB_extra];
       MatrixConfigurator.merge := false;
       MatrixConfigurator.hasSecondaryX := false |} ].

Definition scenarioB_actions : list MatrixConfigurator.action :=
  [ MatrixConfigurator.AddSource 0; MatrixConfigurator.RemoveSource 0 0;
    MatrixConfigurator.RemoveMatrix 1 ].

Definition scenarioB_configured : list MatrixConfigurator.config :=
  [ {| MatrixConfigurator.name := "staff - Roles";
       MatrixConfigurator.sources := [scenarioB_extra];
       MatrixConfigurator.merge := false;
       MatrixConfigurator.hasSecondaryX := true |} ].

(** * Properties *)

(** ** Loops *)

(** A loop whose body never raises is a left fold. *)
Lemma forEach_pure {A S : Type} (body : S → A → result S) (f : S → A → S)
    (l : list A) (s : S) :
  (∀ s a, a ∈ l → body s a = Ok (f s a)) →
  forEach body s l = Ok (foldl f s l).
Proof.
  revert s. induction l as [|a l IH]; intros s Hbody; simpl; [done|].
  rewrite Hbody by left. simpl. apply IH. intros s' a' Ha'. apply Hbody. by right.
Qed.

(** A left fold is invariant under permutation of the list, up to a relation
    on the states for which the steps commute. *)
Lemma foldl_permutation {A S : Type} (R : relation S) `{!Equivalence R}
    (f : S → A → S) (l1 l2 : list A) :
  (∀ a, Proper (R ==> R) (λ s, f s a)) →
  (∀ s a b, R (f (f s a) b) (f (f s b) a)) →
  l1 ≡ₚ l2 → ∀ s1 s2, R s1 s2 → R (foldl f s1 l1) (foldl f s2 l2).
Proof.
  intros Hproper Hcomm Hperm.
  assert (Hfold : ∀ l s1 s2, R s1 s2 → R (foldl f s1 l) (foldl f s2 l)).
  { induction l as [|a l IH]; intros s1 s2 Hs; simpl; [done|].
    apply IH. by apply Hproper. }
  induction Hperm as [|a l1 l2 _ IH|a b l|l1 l2 l3 _ IH1 _ IH2]; intros s1 s2 Hs; simpl.
  - done.
  - apply IH. by apply Hproper.
  - apply Hfold. etrans; [apply Hcomm|]. by do 2 apply Hproper.
  - etrans; [by apply IH1|]. by apply IH2.
Qed.

(** ** Sets and sorting *)

Lemma elem_of_set_add (x y : string) (s : list string) :
  y ∈ set_add x s ↔ y = x ∨ y ∈ s.
Proof.
  unfold set_add. case_decide as Hx.
  - split; [by right|]. by intros [->|].
  - rewrite elem_of_app, list_elem_of_singleton. tauto.
Qed.

Lemma NoDup_set_add (x : string) (s : list string) :
  NoDup s → NoDup (set_add x s).
Proof.
  intros Hs. unfold set_add. case_decide as Hx; [done|].
  apply NoDup_app. split_and!; [done| |apply NoDup_singleton].
  intros y Hy ->%list_elem_of_singleton. done.
Qed.

Lemma elem_of_add_truthy (v y : string) (s : list string) :
  y ∈ add_truthy v s ↔ (y = v ∧ v ≠ EmptyString) ∨ y ∈ s.
Proof.
  unfold add_truthy, str_truthy. case_bool_decide as Hv.
  - rewrite elem_of_set_add. tauto.
  - tauto.
Qed.

Lemma NoDup_add_truthy (v : string) (s : list string) :
  NoDup s → NoDup (add_truthy v s).
Proof. unfold add_truthy. destruct (str_truthy v); auto using NoDup_set_add. Qed.

Lemma set_add_Permutation (x : string) (s1 s2 : list string) :
  s1 ≡ₚ s2 → set_add x s1 ≡ₚ set_add x s2.
Proof.
  intros Hs. unfold set_add.
  destruct (decide (x ∈ s1)) as [H1|H1], (decide (x ∈ s2)) as [H2|H2].
  - done.
  - by rewrite Hs in H1.
  - by rewrite Hs in H1.
  - by rewrite Hs.
Qed.

Lemma add_truthy_Permutation (v : string) (s1 s2 : list string) :
  s1 ≡ₚ s2 → add_truthy v s1 ≡ₚ add_truthy v s2.
Proof. unfold add_truthy. destruct (str_truthy v); auto using set_add_Permutation. Qed.

Lemma sort_Sorted (s : list string) : Sorted String.le (sort s).
Proof. apply (Sorted_merge_sort String.le). Qed.

Lemma sort_Permutation (s : list string) : sort s ≡ₚ s.
Proof. apply merge_sort_Permutation. Qed.

Lemma elem_of_sort (x : string) (s : list string) : x ∈ sort s ↔ x ∈ s.
Proof. by rewrite sort_Permutation. Qed.

Lemma NoDup_sort (s : list string) : NoDup s → NoDup (sort s).
Proof. by rewrite sort_Permutation. Qed.

(** The sorted array depends on the elements of the set only, not on the
    order in which they were added. *)
Lemma sort_proper (s1 s2 : list string) : s1 ≡ₚ s2 → sort s1 = sort s2.
Proof.
  intros Hs. apply (Sorted_unique String.le); [apply sort_Sorted..|].
  by rewrite !sort_Permutation.
Qed.

(** ** [indexOf] *)

Lemma indexOf_from_spec (i : Z) (l : list string) (x : string) :
  (indexOf_from i l x = -1 ∧ x ∉ l) ∨
  (∃ k : nat, indexOf_from i l x = i + Z.of_nat k ∧ l !! k = Some x ∧
     ∀ k' : nat, (k' < k)%nat → l !! k' ≠ Some x).
Proof.
  revert i. induction l as [|y l IH]; intros i; simpl.
  - left. split; [done|]. apply not_elem_of_nil.
  - case_decide as Hy.
    + subst y. right. exists 0%nat. split_and!; [lia|done|lia].
    + destruct (IH (i + 1)) as [[Hi Hx]|(k & Hi & Hk & Hfirst)].
      * left. split; [done|]. rewrite elem_of_cons. by intros [->|?].
      * right. exists (S k). split_and!; [lia|done|].
        intros [|k'] Hlt; simpl; [congruence|]. apply Hfirst. lia.
Qed.

(** A non-negative result is a position of the value. *)
Lemma indexOf_lookup (l : list string) (x : string) :
  0 ≤ indexOf l x → l !! Z.to_nat (indexOf l x) = Some x.
Proof.
  unfold indexOf. destruct (indexOf_from_spec 0 l x) as [[-> _]|(k & -> & Hk & _)].
  - lia.
  - intros _. by replace (Z.to_nat (0 + Z.of_nat k)) with k by lia.
Qed.

Lemma indexOf_lt (l : list string) (x : string) :
  0 ≤ indexOf l x → (Z.to_nat (indexOf l x) < length l)%nat.
Proof. intros H%indexOf_lookup. by eapply lookup_lt_Some. Qed.

(** In an array without duplicates the position of a value is its index. *)
Lemma indexOf_NoDup (l : list string) (k : nat) (x : string) :
  NoDup l → l !! k = Some x → indexOf l x = Z.of_nat k.
Proof.
  intros Hl Hk. unfold indexOf.
  destruct (indexOf_from_spec 0 l x) as [[_ Hx]|(k' & -> & Hk' & _)].
  - destruct Hx. by eapply list_elem_of_lookup_2.
  - rewrite (NoDup_lookup l k k' x) by done. lia.
Qed.

(** ** Grids *)

Lemma grid_ok_emptyGrid (sortedY sortedX : list string) :
  grid_ok (length sortedY) (length sortedX) (emptyGrid sortedY sortedX).
Proof.
  unfold grid_ok, emptyGrid. split; [by rewrite length_fmap|].
  apply Forall_fmap, Forall_true. intros y. simpl. split; [by rewrite length_fmap|].
  apply Forall_fmap, Forall_true. intros x. simpl. by left.
Qed.

Lemma grid_ok_set_cell (ny nx : nat) (data : list (list Z)) (yIdx xIdx : Z) :
  grid_ok ny nx data → grid_ok ny nx (set_cell data yIdx xIdx).
Proof.
  intros [Hlen Hrows]. unfold set_cell. split; [by rewrite length_alter|].
  apply Forall_alter; [done|]. intros cells _ [Hcells H01].
  split; [by rewrite length_insert|]. apply Forall_insert; [done|]. by right.
Qed.

Lemma grid_ok_markIntersection (ny nx : nat) (sortedY sortedX : list string)
    (data : list (list Z)) (yVal xVal : string) :
  grid_ok ny nx data → grid_ok ny nx (markIntersection sortedY sortedX data yVal xVal).
Proof.
  intros Hok. unfold markIntersection.
  destruct (_ && _); [by apply grid_ok_set_cell|done].
Qed.

Lemma cell_emptyGrid (sortedY sortedX : list string) (i j : nat) :
  (i < length sortedY)%nat → (j < length sortedX)%nat →
  cell (emptyGrid sortedY sortedX) i j = Some 0.
Proof.
  intros [y Hy]%lookup_lt_is_Some_2 [x Hx]%lookup_lt_is_Some_2.
  unfold cell, emptyGrid. rewrite list_lookup_fmap, Hy. simpl.
  by rewrite list_lookup_fmap, Hx.
Qed.

(** Reading a cell after [data[a][b] = 1]. *)
Lemma cell_set_cell (data : list (list Z)) (a b : Z) (i j : nat) :
  cell (set_cell data a b) i j =
    if decide (i = Z.to_nat a ∧ j = Z.to_nat b)
    then (λ _, 1) <$> cell data i j
    else cell data i j.
Proof.
  unfold cell, set_cell. case_decide as Hij.
  - destruct Hij as [-> ->]. rewrite list_lookup_alter_eq.
    destruct (data !! Z.to_nat a) as [cells|]; simpl; [|done].
    destruct (decide (Z.to_nat b < length cells)%nat) as [Hlt|Hge].
    + rewrite list_lookup_insert_eq by done.
      by destruct (lookup_lt_is_Some_2 cells _ Hlt) as [c ->].
    + rewrite list_insert_ge by lia. by rewrite lookup_ge_None_2 by lia.
  - destruct (decide (i = Z.to_nat a)) as [->|Hi].
    + rewrite list_lookup_alter_eq.
      destruct (data !! Z.to_nat a) as [cells|]; simpl; [|done].
      apply list_lookup_insert_ne. intros <-. by apply Hij.
    + by rewrite list_lookup_alter_ne.
Qed.

(** ** Marking *)

Lemma set_cell_comm (data : list (list Z)) (a b a' b' : Z) :
  set_cell (set_cell data a b) a' b' = set_cell (set_cell data a' b') a b.
Proof.
  unfold set_cell. destruct (decide (Z.to_nat a' = Z.to_nat a)) as [->|Hne].
  - rewrite !list_alter_alter_eq. apply list_alter_ext; [|done].
    intros cells _. simpl.
    destruct (decide (Z.to_nat b' = Z.to_nat b)) as [->|Hb]; [done|].
    by apply list_insert_insert_ne.
  - by apply list_alter_alter_ne.
Qed.

Lemma markIntersection_comm (sortedY sortedX : list string) (data : list (list Z))
    (y x y' x' : string) :
  markIntersection sortedY sortedX (markIntersection sortedY sortedX data y x) y' x'
  = markIntersection sortedY sortedX (markIntersection sortedY sortedX data y' x') y x.
Proof.
  unfold markIntersection.
  destruct (bool_decide (0 ≤ indexOf sortedY y) && bool_decide (0 ≤ indexOf sortedX x)),
    (bool_decide (0 ≤ indexOf sortedY y') && bool_decide (0 ≤ indexOf sortedX x'));
    auto using set_cell_comm.
Qed.

Lemma markHit_comm (sortedY sortedX : list string) (data : list (list Z))
    (h h' : string * string) :
  markHit sortedY sortedX (markHit sortedY sortedX data h) h'
  = markHit sortedY sortedX (markHit sortedY sortedX data h') h.
Proof.
  unfold markHit.
  destruct (str_truthy h.1 && str_truthy h.2), (str_truthy h'.1 && str_truthy h'.2);
    auto using markIntersection_comm.
Qed.

Lemma foldl_markRow (yCol xCol : option string) (sortedY sortedX : list string)
    (rows : list row) (data : list (list Z)) :
  foldl (markRow yCol xCol sortedY sortedX) data rows
  = foldl (markHit sortedY sortedX) data (rowHits yCol xCol rows).
Proof.
  revert data. induction rows as [|r rows IH]; intros data; simpl; [done|].
  by rewrite IH.
Qed.

Lemma foldl_markRowSecondary (yCol xCol secondaryXCol : option string) (secX : string)
    (sortedY sortedX : list string) (rows : list row) (data : list (list Z)) :
  foldl (markRowSecondary yCol xCol secondaryXCol secX sortedY sortedX) data rows
  = foldl (markHit sortedY sortedX) data
      (rowHitsSecondary yCol xCol secondaryXCol secX rows).
Proof.
  revert data. unfold rowHitsSecondary.
  induction rows as [|r rows IH]; intros data; [done|].
  cbn [foldl]. rewrite IH, filter_cons. unfold markRowSecondary.
  case_decide as Hsec.
  - rewrite bool_decide_true, andb_true_r by done. done.
  - rewrite bool_decide_false, andb_false_r by done. done.
Qed.

Lemma elem_of_rowHits (yCol xCol : option string) (rows : list row) (y x : string) :
  (y, x) ∈ rowHits yCol xCol rows ↔
  ∃ r, r ∈ rows ∧ cellValue r yCol = y ∧ cellValue r xCol = x.
Proof.
  unfold rowHits. rewrite list_elem_of_fmap. split.
  - intros (r & [= -> ->] & Hr). eauto.
  - intros (r & Hr & <- & <-). eauto.
Qed.

Lemma elem_of_rowHitsSecondary (yCol xCol secondaryXCol : option string)
    (secX : string) (rows : list row) (y x : string) :
  (y, x) ∈ rowHitsSecondary yCol xCol secondaryXCol secX rows ↔
  ∃ r, r ∈ rows ∧ cellValue r yCol = y ∧ cellValue r xCol = x ∧
       secondaryValue r secondaryXCol = Some secX.
Proof.
  unfold rowHitsSecondary. rewrite elem_of_rowHits. split.
  - intros (r & [Hsec Hr]%list_elem_of_filter & Hy & Hx). eauto 6.
  - intros (r & Hr & Hy & Hx & Hsec). exists r. by rewrite list_elem_of_filter.
Qed.

Lemma grid_ok_foldl_markHit (ny nx : nat) (sortedY sortedX : list string)
    (hits : list (string * string)) (data : list (list Z)) :
  grid_ok ny nx data → grid_ok ny nx (foldl (markHit sortedY sortedX) data hits).
Proof.
  revert data. induction hits as [|h hits IH]; intros data Hok; simpl; [done|].
  apply IH. unfold markHit. destruct (_ && _); [|done].
  by apply grid_ok_markIntersection.
Qed.

(** Reading a cell of the grid after one marking, at a position of the axes. *)
Lemma cell_markIntersection (sortedY sortedX : list string) (data : list (list Z))
    (yVal xVal : string) (i j : nat) (y x : string) :
  NoDup sortedY → NoDup sortedX →
  sortedY !! i = Some y → sortedX !! j = Some x →
  cell (markIntersection sortedY sortedX data yVal xVal) i j =
    if decide (yVal = y ∧ xVal = x)
    then (λ _, 1) <$> cell data i j
    else cell data i j.
Proof.
  intros HY HX Hi Hj. unfold markIntersection. case_decide as Hyx.
  - destruct Hyx as [-> ->].
    rewrite (indexOf_NoDup sortedY i y), (indexOf_NoDup sortedX j x) by done.
    rewrite !bool_decide_true by lia. simpl. rewrite cell_set_cell.
    rewrite decide_True by (split; lia). done.
  - destruct (bool_decide (0 ≤ indexOf sortedY yVal)) eqn:Hy0; simpl; [|done].
    destruct (bool_decide (0 ≤ indexOf sortedX xVal)) eqn:Hx0; simpl; [|done].
    apply bool_decide_eq_true_1 in Hy0, Hx0.
    rewrite cell_set_cell. case_decide as Hij; [|done].
    destruct Hij as [-> ->]. destruct Hyx.
    rewrite indexOf_lookup in Hi, Hj by done. by simplify_eq.
Qed.

(** The cells of a grid after the markings of a list of pairs: a cell is 1
    when it was 1 or when its pair of labels is among the pairs. *)
Lemma cell_foldl_markHit (sortedY sortedX : list string)
    (hits : list (string * string)) (data : list (list Z))
    (i j : nat) (y x : string) :
  NoDup sortedY → NoDup sortedX →
  sortedY !! i = Some y → sortedX !! j = Some x → y ≠ EmptyString → x ≠ EmptyString →
  is_Some (cell data i j) →
  cell (foldl (markHit sortedY sortedX) data hits) i j = Some 1 ↔
  cell data i j = Some 1 ∨ (y, x) ∈ hits.
Proof.
  intros HY HX Hi Hj Hy Hx. revert data.
  induction hits as [|[yVal xVal] hits IH]; intros data Hdata; simpl.
  - rewrite elem_of_nil. tauto.
  - assert (Hstep : cell (markHit sortedY sortedX data (yVal, xVal)) i j =
        if decide (yVal = y ∧ xVal = x) then (λ _, 1) <$> cell data i j
        else cell data i j).
    { unfold markHit, str_truthy. simpl.
      destruct (decide (yVal = y ∧ xVal = x)) as [[-> ->]|Hne].
      - rewrite !bool_decide_true by done. simpl.
        rewrite (cell_markIntersection _ _ _ _ _ i j y x) by done.
        by rewrite decide_True.
      - destruct (_ && _); [|done].
        rewrite (cell_markIntersection _ _ _ _ _ i j y x) by done.
        by rewrite decide_False. }
    rewrite IH, Hstep, elem_of_cons.
    + destruct Hdata as [c Hc]. rewrite Hc. case_decide as Hyx; simpl.
      * destruct Hyx as [-> ->]. split; [auto|]. intros _. by left.
      * split; [tauto|]. intros [?|[[= ??]|?]]; [by left|by destruct Hyx|by right].
    + rewrite Hstep. destruct Hdata as [c Hc]. rewrite Hc. by case_decide.
Qed.

(** ** Collecting *)

Lemma set_add_elem (x : string) (s : list string) : x ∈ s → set_add x s = s.
Proof. intros Hx. unfold set_add. by rewrite decide_True. Qed.

Lemma set_add_fresh (x : string) (s : list string) : x ∉ s → set_add x s = s ++ [x].
Proof. intros Hx. unfold set_add. by rewrite decide_False. Qed.

Lemma set_add_comm (x y : string) (s : list string) :
  set_add y (set_add x s) ≡ₚ set_add x (set_add y s).
Proof.
  destruct (decide (x ∈ s)) as [Hx|Hx], (decide (y ∈ s)) as [Hy|Hy].
  - by rewrite (set_add_elem x s), (set_add_elem y s), (set_add_elem x s).
  - rewrite (set_add_elem x s), (set_add_fresh y s) by done.
    rewrite set_add_elem; [done|]. rewrite elem_of_app. by left.
  - rewrite (set_add_elem y s), (set_add_fresh x s) by done.
    rewrite set_add_elem; [done|]. rewrite elem_of_app. by left.
  - rewrite (set_add_fresh x s), (set_add_fresh y s) by done.
    destruct (decide (x = y)) as [->|Hxy]; [done|].
    rewrite !set_add_fresh.
    + rewrite <-!(assoc_L (++)). f_equiv. apply Permutation_swap.
    + rewrite elem_of_app, list_elem_of_singleton. by intros [?|?].
    + rewrite elem_of_app, list_elem_of_singleton. by intros [?|?].
Qed.

Lemma add_value_Permutation (v : option string) (s1 s2 : list string) :
  s1 ≡ₚ s2 → add_value v s1 ≡ₚ add_value v s2.
Proof. destruct v; simpl; auto using add_truthy_Permutation. Qed.

Lemma add_value_comm (v w : option string) (s : list string) :
  add_value w (add_value v s) ≡ₚ add_value v (add_value w s).
Proof.
  destruct v as [v|], w as [w|]; simpl; try done.
  unfold add_truthy. destruct (str_truthy v), (str_truthy w); try done.
  apply set_add_comm.
Qed.

Lemma NoDup_collect (values : list (option string)) (s : list string) :
  NoDup s → NoDup (collect s values).
Proof.
  revert s. induction values as [|v values IH]; intros s Hs; simpl; [done|].
  apply IH. destruct v; simpl; auto using NoDup_add_truthy.
Qed.

Lemma elem_of_collect (values : list (option string)) (s : list string) (y : string) :
  y ∈ collect s values ↔ y ∈ s ∨ (y ≠ EmptyString ∧ Some y ∈ values).
Proof.
  revert s. induction values as [|v values IH]; intros s; simpl.
  - rewrite elem_of_nil. tauto.
  - unfold collect in IH. rewrite IH, elem_of_cons. destruct v as [v|]; simpl.
    + rewrite elem_of_add_truthy. split.
      * intros [[[-> ?]|?]|[? ?]]; auto.
      * intros [?|[? [[= ->]|?]]]; auto.
    + split; [tauto|]. intros [?|[? [[=]|?]]]; auto.
Qed.

(** The set after the loop depends on the order of the values by a
    permutation only. *)
Lemma collect_Permutation (values1 values2 : list (option string))
    (s1 s2 : list string) :
  values1 ≡ₚ values2 → s1 ≡ₚ s2 → collect s1 values1 ≡ₚ collect s2 values2.
Proof.
  intros Hv Hs. unfold collect.
  apply (foldl_permutation (≡ₚ) (λ s v, add_value v s)); [|..|done|done].
  - intros v s s' Hss. by apply add_value_Permutation.
  - intros s v w. apply add_value_comm.
Qed.

Lemma collect_app (values1 values2 : list (option string)) (s : list string) :
  collect s (values1 ++ values2) = collect (collect s values1) values2.
Proof. apply foldl_app. Qed.

Lemma foldl_collectRow (yCol xCol secondaryXCol : option string)
    (rows : list row) (yValues xValues secondaryXValues : list string) :
  foldl (collectRow yCol xCol secondaryXCol) (yValues, xValues, secondaryXValues) rows
  = (collect yValues (columnValues yCol rows),
     collect xValues (columnValues xCol rows),
     collect secondaryXValues (secondaryValues secondaryXCol rows)).
Proof.
  revert yValues xValues secondaryXValues.
  induction rows as [|r rows IH]; intros ys xs ss; simpl; [done|].
  by rewrite IH.
Qed.

(** The independent collection computes what the merged collection of the
    same sheet computes; its set of secondary values is [null] exactly when
    no secondary column is selected. *)
Lemma foldl_collectRowIndependent (yCol xCol secondaryXCol : option string)
    (rows : list row) (yValues xValues secondaryXValues : list string) :
  foldl (collectRowIndependent yCol xCol secondaryXCol)
    (yValues, xValues, if col_truthy secondaryXCol then Some secondaryXValues else None)
    rows
  = (collect yValues (columnValues yCol rows),
     collect xValues (columnValues xCol rows),
     if col_truthy secondaryXCol
     then Some (collect secondaryXValues (secondaryValues secondaryXCol rows))
     else None).
Proof.
  revert yValues xValues secondaryXValues.
  unfold collect, columnValues, secondaryValues.
  destruct (col_truthy secondaryXCol) eqn:Hsc;
    induction rows as [|r rows IH]; intros ys xs ss; [done| |done|].
  - cbn [foldl fmap list_fmap]. rewrite <-IH. f_equal.
    unfold collectRowIndependent, secondaryValue. by rewrite Hsc.
  - cbn [foldl fmap list_fmap]. rewrite <-(IH _ _ ss). f_equal.
    unfold collectRowIndependent, secondaryValue. by rewrite Hsc.
Qed.

Lemma elem_of_columnValues (col : option string) (rows : list row) (y : string) :
  Some y ∈ columnValues col rows ↔ ∃ r, r ∈ rows ∧ cellValue r col = y.
Proof.
  unfold columnValues. rewrite list_elem_of_fmap. split.
  - intros (r & [= ->] & Hr). eauto.
  - intros (r & Hr & <-). eauto.
Qed.

Lemma elem_of_secondaryValues (secondaryXCol : option string) (rows : list row)
    (s : string) :
  Some s ∈ secondaryValues secondaryXCol rows ↔
  ∃ r, r ∈ rows ∧ secondaryValue r secondaryXCol = Some s.
Proof.
  unfold secondaryValues. rewrite list_elem_of_fmap. split.
  - intros (r & Hs & Hr). eauto.
  - intros (r & Hr & Hs). eauto.
Qed.

(** ** The loops over the sources *)

Section loops.
Context (fileData : list File.t) (columnSelections : gmap string Selection.t).

Lemma findSheet_unresolved (source : Source.t) :
  ¬ resolves fileData source → findSheet fileData source = TypeError.
Proof.
  unfold resolves, findSheet. destruct (fileData !! _); [|done].
  intros []. by eexists.
Qed.

Lemma findSheet_resolved (source : Source.t) :
  resolves fileData source → ∃ sheet, findSheet fileData source = Ok sheet.
Proof. unfold resolves, findSheet. intros [file ->]. by eexists. Qed.

(** A loop over the sources raises when one of them does not resolve. *)
Lemma forEach_unresolved {S : Type} (body : S → Source.t → result S)
    (sources : list Source.t) (s : S) :
  (∀ s source, ¬ resolves fileData source → body s source = TypeError) →
  ¬ Forall (resolves fileData) sources →
  forEach body s sources = TypeError.
Proof.
  intros Hbody. revert s.
  induction sources as [|source sources IH]; intros s Hsources; simpl.
  - by destruct Hsources.
  - destruct (decide (resolves fileData source)) as [Hsource|Hsource].
    + destruct (body s source) as [s'|]; simpl; [|done].
      apply IH. contradict Hsources. by constructor.
    + by rewrite Hbody.
Qed.

Lemma collectSource_resolved (source : Source.t)
    (yValues xValues secondaryXValues : list string) :
  resolves fileData source →
  collectSource fileData columnSelections (yValues, xValues, secondaryXValues) source
  = Ok (collect yValues (columnValues (yColOf columnSelections source) (sourceRows fileData source)),
        collect xValues (columnValues (xColOf columnSelections source) (sourceRows fileData source)),
        collect secondaryXValues
          (secondaryValues (secondaryXColOf columnSelections source) (sourceRows fileData source))).
Proof.
  intros [sheet Hsheet]%findSheet_resolved.
  unfold collectSource, sourceRows. rewrite Hsheet. simpl.
  destruct sheet as [sheet|]; [|done]. by rewrite foldl_collectRow.
Qed.

Lemma forEach_collectSource (sources : list Source.t)
    (yValues xValues secondaryXValues : list string) :
  Forall (resolves fileData) sources →
  forEach (collectSource fileData columnSelections)
    (yValues, xValues, secondaryXValues) sources
  = Ok (collect yValues
          (sources ≫= λ source,
             columnValues (yColOf columnSelections source) (sourceRows fileData source)),
        collect xValues
          (sources ≫= λ source,
             columnValues (xColOf columnSelections source) (sourceRows fileData source)),
        collect secondaryXValues
          (sources ≫= λ source,
             secondaryValues (secondaryXColOf columnSelections source) (sourceRows fileData source))).
Proof.
  intros Hsources. revert yValues xValues secondaryXValues.
  induction Hsources as [|source sources Hsource _ IH]; intros ys xs ss; [done|].
  cbn [forEach]. rewrite collectSource_resolved by done. simpl.
  rewrite IH. by rewrite !collect_app.
Qed.

Lemma markSource_resolved (sortedY sortedX : list string) (data : list (list Z))
    (source : Source.t) :
  resolves fileData source →
  markSource fileData columnSelections sortedY sortedX data source
  = Ok (foldl (markHit sortedY sortedX) data
          (rowHits (yColOf columnSelections source) (xColOf columnSelections source) (sourceRows fileData source))).
Proof.
  intros [sheet Hsheet]%findSheet_resolved.
  unfold markSource, sourceRows. rewrite Hsheet. simpl.
  destruct sheet as [sheet|]; [|done]. by rewrite foldl_markRow.
Qed.

Lemma markSourceSecondary_resolved (secX : string) (sortedY sortedX : list string)
    (data : list (list Z)) (source : Source.t) :
  resolves fileData source →
  markSourceSecondary fileData columnSelections secX sortedY sortedX data source
  = Ok (foldl (markHit sortedY sortedX) data
          (rowHitsSecondary (yColOf columnSelections source) (xColOf columnSelections source) (secondaryXColOf columnSelections source)
             secX (sourceRows fileData source))).
Proof.
  intros [sheet Hsheet]%findSheet_resolved.
  unfold markSourceSecondary, sourceRows. rewrite Hsheet. simpl.
  destruct sheet as [sheet|]; [|done]. by rewrite foldl_markRowSecondary.
Qed.

Lemma forEach_markSource (sortedY sortedX : list string) (sources : list Source.t)
    (data : list (list Z)) :
  Forall (resolves fileData) sources →
  forEach (markSource fileData columnSelections sortedY sortedX) data sources
  = Ok (foldl (markHit sortedY sortedX) data (hits fileData columnSelections sources)).
Proof.
  intros Hsources. revert data. unfold hits.
  induction Hsources as [|source sources Hsource _ IH]; intros data; [done|].
  cbn [forEach]. rewrite markSource_resolved by done. simpl.
  by rewrite IH, foldl_app.
Qed.

Lemma forEach_markSourceSecondary (secX : string) (sortedY sortedX : list string)
    (sources : list Source.t) (data : list (list Z)) :
  Forall (resolves fileData) sources →
  forEach (markSourceSecondary fileData columnSelections secX sortedY sortedX)
    data sources
  = Ok (foldl (markHit sortedY sortedX) data
          (hitsSecondary fileData columnSelections secX sources)).
Proof.
  intros Hsources. revert data. unfold hitsSecondary.
  induction Hsources as [|source sources Hsource _ IH]; intros data; [done|].
  cbn [forEach]. rewrite markSourceSecondary_resolved by done. simpl.
  by rewrite IH, foldl_app.
Qed.

Lemma foldl_push {A : Type} (f : A → Matrix.t) (l : list A) (matrices : list Matrix.t) :
  foldl (λ matrices a, matrices ++ [f a]) matrices l = matrices ++ (f <$> l).
Proof.
  revert matrices. induction l as [|a l IH]; intros matrices; simpl.
  - by rewrite app_nil_r.
  - by rewrite IH, <-(assoc_L (++)).
Qed.

(** Merge mode, when every source resolves. *)
Lemma computeMerged_resolved (config : Config.t) (matrices : list Matrix.t) :
  Forall (resolves fileData) (Config.sources config) →
  computeMerged fileData columnSelections config matrices
  = Ok (matrices ++ mergedOutput fileData columnSelections config).
Proof.
  intros Hsources. unfold computeMerged, mergedOutput.
  rewrite forEach_collectSource by done. simpl.
  fold (axisY fileData columnSelections (Config.sources config)).
  fold (axisX fileData columnSelections (Config.sources config)).
  fold (axisSecondary fileData columnSelections (Config.sources config)).
  destruct (hasSecondaryX columnSelections config); simpl.
  - destruct (axisSecondary _ _ _) as [|secX secs] eqn:Hsecs; cbn beta iota.
    + rewrite bool_decide_false by naive_solver. by rewrite forEach_markSource by done.
    + rewrite bool_decide_true by done. rewrite (forEach_pure _ (λ matrices secX, matrices ++
        [matrixOf fileData columnSelections (Config.name config +:+ " - " +:+ secX)
           (Config.sources config)
           (hitsSecondary fileData columnSelections secX (Config.sources config))])).
      * by rewrite foldl_push.
      * intros ms s _. by rewrite forEach_markSourceSecondary by done.
  - by rewrite forEach_markSource by done.
Qed.

(** Merge mode, when a source does not resolve. *)
Lemma computeMerged_unresolved (config : Config.t) (matrices : list Matrix.t) :
  ¬ Forall (resolves fileData) (Config.sources config) →
  computeMerged fileData columnSelections config matrices = TypeError.
Proof.
  intros Hsources. unfold computeMerged.
  rewrite forEach_unresolved; [done| |done].
  intros acc source Hsource. unfold collectSource.
  by rewrite findSheet_unresolved.
Qed.

(** Independent mode: the matrices of one sheet. *)
Lemma sheetMatrices_sourceOutput (source : Source.t) (sheet : Sheet.t)
    (matrices : list Matrix.t) :
  findSheet fileData source = Ok (Some sheet) →
  sheetMatrices columnSelections source sheet matrices
  = matrices ++ sourceOutput fileData columnSelections source.
Proof.
  intros Hsheet. unfold sheetMatrices, sourceOutput.
  unfold axisY, axisX, axisSecondary, matrixOf, gridOf, hits, hitsSecondary,
    axisY, axisX.
  simpl. unfold sourceRows. rewrite Hsheet, !app_nil_r.
  rewrite foldl_collectRowIndependent.
  unfold yColOf, xColOf, secondaryXColOf.
  destruct (col_truthy (selected columnSelections source Selection.secondaryXAxis));
    cbn beta iota.
  - cbn [fmap option_fmap option_map andb].
    destruct (sort (collect [] (secondaryValues _ _))) as [|secX secs]; cbn beta iota.
    + rewrite bool_decide_false by naive_solver. by rewrite foldl_markRow.
    + rewrite bool_decide_true by done. rewrite (foldl_push (λ secX, _)).
      f_equal. apply list_fmap_ext. intros i s Hs.
      by rewrite foldl_markRowSecondary, app_nil_r.
  - cbn [fmap option_fmap option_map andb]. by rewrite foldl_markRow.
Qed.

Lemma computeSource_found (source : Source.t) (sheet : Sheet.t)
    (matrices : list Matrix.t) :
  findSheet fileData source = Ok (Some sheet) →
  computeSource fileData columnSelections matrices source
  = Ok (matrices ++ sourceOutput fileData columnSelections source).
Proof.
  intros Hsheet. unfold computeSource. rewrite Hsheet. simpl.
  by rewrite sheetMatrices_sourceOutput.
Qed.

(** Independent mode: a source whose file exists and has no sheet of the
    name is skipped. *)
Lemma computeSource_not_found (source : Source.t) (matrices : list Matrix.t) :
  findSheet fileData source = Ok None →
  computeSource fileData columnSelections matrices source = Ok matrices.
Proof. intros Hsheet. unfold computeSource. by rewrite Hsheet. Qed.

Lemma forEach_computeSource (sources : list Source.t) (matrices : list Matrix.t) :
  Forall (resolves fileData) sources →
  forEach (computeSource fileData columnSelections) matrices sources
  = Ok (matrices ++
          (sources ≫= λ source,
             match findSheet fileData source with
             | Ok (Some _) => sourceOutput fileData columnSelections source
             | _ => []
             end)).
Proof.
  intros Hsources. revert matrices.
  induction Hsources as [|source sources Hsource _ IH]; intros matrices; simpl.
  - by rewrite app_nil_r.
  - destruct (findSheet_resolved source Hsource) as [[sheet|] Hsheet].
    + rewrite (computeSource_found _ sheet) by done. simpl.
      by rewrite IH, Hsheet, (assoc_L (++)).
    + rewrite computeSource_not_found by done. simpl. by rewrite IH, Hsheet.
Qed.

(** One configuration: its matrices are appended when every source resolves,
    and the computation raises otherwise. *)
Lemma computeConfig_resolved (config : Config.t) (matrices : list Matrix.t) :
  Forall (resolves fileData) (Config.sources config) →
  computeConfig fileData columnSelections matrices config
  = Ok (matrices ++ configOutput fileData columnSelections config).
Proof.
  intros Hsources. unfold computeConfig, configOutput, independentOutput.
  destruct (Config.merge config).
  - by apply computeMerged_resolved.
  - by apply forEach_computeSource.
Qed.

Lemma computeConfig_unresolved (config : Config.t) (matrices : list Matrix.t) :
  ¬ Forall (resolves fileData) (Config.sources config) →
  computeConfig fileData columnSelections matrices config = TypeError.
Proof.
  intros Hsources. unfold computeConfig. destruct (Config.merge config).
  - by apply computeMerged_unresolved.
  - apply forEach_unresolved; [|done]. intros ms source Hsource.
    unfold computeSource. by rewrite findSheet_unresolved.
Qed.

End loops.

(** ** The whole computation *)

Lemma forEach_computeConfig (fileData : list File.t)
    (columnSelections : gmap string Selection.t)
    (matrixConfig : list Config.t) (matrices : list Matrix.t) :
  all_resolve fileData matrixConfig →
  forEach (computeConfig fileData columnSelections) matrices matrixConfig
  = Ok (matrices ++ (matrixConfig ≫= configOutput fileData columnSelections)).
Proof.
  intros Hall. revert matrices.
  induction Hall as [|config configs Hconfig _ IH]; intros matrices; simpl.
  - by rewrite app_nil_r.
  - rewrite computeConfig_resolved by done. simpl. by rewrite IH, (assoc_L (++)).
Qed.

(** [computeMatrices] returns the matrices of the configurations, in order,
    when every source resolves. *)
Lemma computeMatrices_resolved (fileData : list File.t)
    (selectedTabs : gmap string (list string))
    (columnSelections : gmap string Selection.t) (matrixConfig : list Config.t) :
  all_resolve fileData matrixConfig →
  computeMatrices fileData selectedTabs columnSelections matrixConfig
  = Ok (matrixConfig ≫= configOutput fileData columnSelections).
Proof. intros Hall. unfold computeMatrices. by rewrite forEach_computeConfig. Qed.

(** It raises when a source does not resolve. *)
Lemma computeMatrices_unresolved (fileData : list File.t)
    (selectedTabs : gmap string (list string))
    (columnSelections : gmap string Selection.t) (matrixConfig : list Config.t) :
  ¬ all_resolve fileData matrixConfig →
  computeMatrices fileData selectedTabs columnSelections matrixConfig = TypeError.
Proof.
  unfold computeMatrices, all_resolve. generalize (@nil Matrix.t).
  induction matrixConfig as [|config configs IH]; intros matrices Hall; simpl.
  - by destruct Hall.
  - destruct (decide (Forall (resolves fileData) (Config.sources config)))
      as [Hconfig|Hconfig].
    + rewrite computeConfig_resolved by done. simpl. apply IH.
      contradict Hall. by constructor.
    + by rewrite computeConfig_unresolved.
Qed.

(** ** The matrices of the closed form *)

Lemma axis_ok_sort_collect (values : list (option string)) :
  axis_ok (sort (collect [] values)).
Proof.
  split_and!.
  - rewrite elem_of_sort, elem_of_collect, elem_of_nil. tauto.
  - apply NoDup_sort, NoDup_collect, NoDup_nil_2.
  - apply sort_Sorted.
Qed.

Section outputs.
Context (fileData : list File.t) (columnSelections : gmap string Selection.t).


Lemma cells_ok_matrixOf (name : string) (sources : list Source.t)
    (marked : list (string * string)) :
  cells_ok (matrixOf fileData columnSelections name sources marked).
Proof. apply grid_ok_foldl_markHit, grid_ok_emptyGrid. Qed.


(** Every matrix of a configuration is a matrix over the axes of some of
    its sources. *)
Lemma configOutput_matrixOf (config : Config.t) (m : Matrix.t) :
  m ∈ configOutput fileData columnSelections config →
  ∃ name sources marked, m = matrixOf fileData columnSelections name sources marked.
Proof.
  unfold configOutput, mergedOutput, independentOutput, sourceOutput.
  destruct (Config.merge config).
  - destruct (_ && _).
    + intros (secX & -> & _)%list_elem_of_fmap. eauto.
    + intros ->%list_elem_of_singleton. eauto.
  - intros (source & Hm & _)%list_elem_of_bind.
    destruct (findSheet fileData source) as [[sheet|]|];
      [|by apply elem_of_nil in Hm..].
    destruct (_ && _).
    + apply list_elem_of_fmap in Hm as (secX & -> & _). eauto.
    + apply list_elem_of_singleton in Hm as ->. eauto.
Qed.

End outputs.

(** Every matrix [computeMatrices] returns has a property that the matrices
    of the closed form have. *)
Lemma computeMatrices_Forall (P : Matrix.t → Prop) (fileData : list File.t)
    (selectedTabs : gmap string (list string))
    (columnSelections : gmap string Selection.t) (matrixConfig : list Config.t)
    (matrices : list Matrix.t) :
  (∀ name sources marked,
     P (matrixOf fileData columnSelections name sources marked)) →
  computeMatrices fileData selectedTabs columnSelections matrixConfig = Ok matrices →
  Forall P matrices.
Proof.
  intros HP Hrun.
  destruct (decide (all_resolve fileData matrixConfig)) as [Hall|Hall].
  - rewrite computeMatrices_resolved in Hrun by done. injection Hrun as <-.
    apply Forall_forall. intros m (config & Hm & _)%list_elem_of_bind.
    apply configOutput_matrixOf in Hm as (name & sources & marked & ->). apply HP.
  - by rewrite computeMatrices_unresolved in Hrun.
Qed.

(** ** What is on the axes and what is marked *)

Section membership.
Context (fileData : list File.t) (columnSelections : gmap string Selection.t).

Lemma sourceRows_found (source : Source.t) (sheet : Sheet.t) :
  findSheet fileData source = Ok (Some sheet) →
  sourceRows fileData source = Sheet.data sheet.
Proof. intros Hsheet. unfold sourceRows. by rewrite Hsheet. Qed.

Lemma elem_of_axisY (sources : list Source.t) (y : string) :
  y ∈ axisY fileData columnSelections sources ↔
  y ≠ EmptyString ∧
  ∃ source r, source ∈ sources ∧ r ∈ sourceRows fileData source ∧
    cellValue r (yColOf columnSelections source) = y.
Proof.
  unfold axisY. rewrite elem_of_sort, elem_of_collect, elem_of_nil, list_elem_of_bind.
  setoid_rewrite elem_of_columnValues. naive_solver.
Qed.

Lemma elem_of_axisX (sources : list Source.t) (x : string) :
  x ∈ axisX fileData columnSelections sources ↔
  x ≠ EmptyString ∧
  ∃ source r, source ∈ sources ∧ r ∈ sourceRows fileData source ∧
    cellValue r (xColOf columnSelections source) = x.
Proof.
  unfold axisX. rewrite elem_of_sort, elem_of_collect, elem_of_nil, list_elem_of_bind.
  setoid_rewrite elem_of_columnValues. naive_solver.
Qed.

Lemma elem_of_axisSecondary (sources : list Source.t) (s : string) :
  s ∈ axisSecondary fileData columnSelections sources ↔
  s ≠ EmptyString ∧
  ∃ source r, source ∈ sources ∧ r ∈ sourceRows fileData source ∧
    secondaryValue r (secondaryXColOf columnSelections source) = Some s.
Proof.
  unfold axisSecondary.
  rewrite elem_of_sort, elem_of_collect, elem_of_nil, list_elem_of_bind.
  setoid_rewrite elem_of_secondaryValues. naive_solver.
Qed.

Lemma elem_of_hits (sources : list Source.t) (y x : string) :
  (y, x) ∈ hits fileData columnSelections sources ↔
  ∃ source r, source ∈ sources ∧ r ∈ sourceRows fileData source ∧
    cellValue r (yColOf columnSelections source) = y ∧
    cellValue r (xColOf columnSelections source) = x.
Proof.
  unfold hits. rewrite list_elem_of_bind.
  setoid_rewrite elem_of_rowHits. naive_solver.
Qed.

Lemma elem_of_hitsSecondary (secX : string) (sources : list Source.t) (y x : string) :
  (y, x) ∈ hitsSecondary fileData columnSelections secX sources ↔
  ∃ source r, source ∈ sources ∧ r ∈ sourceRows fileData source ∧
    cellValue r (yColOf columnSelections source) = y ∧
    cellValue r (xColOf columnSelections source) = x ∧
    secondaryValue r (secondaryXColOf columnSelections source) = Some secX.
Proof.
  unfold hitsSecondary. rewrite list_elem_of_bind.
  setoid_rewrite elem_of_rowHitsSecondary. naive_solver.
Qed.

(** Without a split, a found sheet yields its single matrix. *)
Lemma sourceOutput_no_split (source : Source.t) (sheet : Sheet.t) :
  findSheet fileData source = Ok (Some sheet) →
  no_secondary_split columnSelections source sheet →
  sourceOutput fileData columnSelections source
  = [ matrixOf fileData columnSelections
        (Source.fileName source +:+ " - " +:+ Source.sheetName source)
        [source] (hits fileData columnSelections [source]) ].
Proof.
  intros Hsheet Hsplit. unfold sourceOutput.
  destruct (col_truthy _) eqn:Hcol; [|done]. simpl.
  rewrite bool_decide_false; [done|]. intros Hsecs. apply Hsecs.
  apply elem_of_nil_inv. intros s (Hs & source' & r & Hsource & Hr & Hsec)%elem_of_axisSecondary.
  apply list_elem_of_singleton in Hsource as ->.
  rewrite (sourceRows_found _ sheet) in Hr by done.
  destruct Hsplit as [Hno|Hempty]; [congruence|].
  rewrite Forall_forall in Hempty. specialize (Hempty r Hr).
  unfold secondaryValue in Hsec. rewrite Hcol in Hsec. congruence.
Qed.

End membership.

(** ** Permuted rows *)

Lemma bind_singleton {A B : Type} (f : A → list B) (a : A) : [a] ≫= f = f a.
Proof. rewrite bind_cons. apply app_nil_r. Qed.

Lemma bind_Permutation_pointwise {A B : Type} (f g : A → list B) (l : list A) :
  (∀ a, f a ≡ₚ g a) → l ≫= f ≡ₚ l ≫= g.
Proof.
  intros Hfg. induction l as [|a l IH]; [done|].
  rewrite !bind_cons. by f_equiv.
Qed.

Lemma foldl_markHit_Permutation (sortedY sortedX : list string)
    (marked marked' : list (string * string)) (data : list (list Z)) :
  marked ≡ₚ marked' →
  foldl (markHit sortedY sortedX) data marked
  = foldl (markHit sortedY sortedX) data marked'.
Proof.
  intros Hperm.
  apply (foldl_permutation (=) (markHit sortedY sortedX)); [|..|done|done].
  - by intros h d d' ->.
  - intros d h h'. apply markHit_comm.
Qed.

Section permuted.
Context (fileData fileData' : list File.t) (columnSelections : gmap string Selection.t).
Context (Hperm : rows_permuted fileData fileData').

Lemma resolves_permuted (source : Source.t) :
  resolves fileData source ↔ resolves fileData' source.
Proof.
  unfold resolves. rewrite !lookup_lt_is_Some.
  by rewrite (Forall2_length _ _ _ Hperm).
Qed.

Lemma find_permuted (name : string) (sheets sheets' : list Sheet.t) :
  Forall2 sheet_permuted sheets sheets' →
  option_Forall2 sheet_permuted
    (List.find (λ s, bool_decide (Sheet.name s = name)) sheets)
    (List.find (λ s, bool_decide (Sheet.name s = name)) sheets').
Proof.
  induction 1 as [|s s' sheets sheets' Hs _ IH]; simpl; [constructor|].
  destruct Hs as (Hname & Hheaders & Hdata). rewrite <-Hname.
  case_bool_decide; [|done]. by constructor.
Qed.

(** The rows a source contributes are a permutation of those it contributed
    before, and its sheet is found when it was found before. *)
Lemma findSheet_permuted (source : Source.t) :
  match findSheet fileData source, findSheet fileData' source with
  | Ok (Some s), Ok (Some s') => sheet_permuted s s'
  | Ok None, Ok None => True
  | TypeError, TypeError => True
  | _, _ => False
  end.
Proof.
  unfold findSheet.
  destruct (fileData !! Source.fileIndex source) as [file|] eqn:Hfile.
  - destruct (Forall2_lookup_l _ _ _ _ _ Hperm Hfile) as (file' & -> & _ & Hsheets).
    by destruct (find_permuted (Source.sheetName source) _ _ Hsheets).
  - rewrite (proj2 (eq_None_not_Some _)); [done|].
    intros Hsome. apply resolves_permuted in Hsome.
    unfold resolves in Hsome. rewrite Hfile in Hsome. by destruct Hsome.
Qed.

Lemma sourceRows_permuted (source : Source.t) :
  sourceRows fileData source ≡ₚ sourceRows fileData' source.
Proof.
  unfold sourceRows. pose proof (findSheet_permuted source) as H.
  destruct (findSheet fileData source) as [[s|]|],
    (findSheet fileData' source) as [[s'|]|]; try done.
  by destruct H as (_ & _ & ?).
Qed.

Lemma axisY_permuted (sources : list Source.t) :
  axisY fileData columnSelections sources = axisY fileData' columnSelections sources.
Proof.
  unfold axisY. apply sort_proper, collect_Permutation; [|done].
  apply bind_Permutation_pointwise. intros source. unfold columnValues.
  by rewrite sourceRows_permuted.
Qed.

Lemma axisX_permuted (sources : list Source.t) :
  axisX fileData columnSelections sources = axisX fileData' columnSelections sources.
Proof.
  unfold axisX. apply sort_proper, collect_Permutation; [|done].
  apply bind_Permutation_pointwise. intros source. unfold columnValues.
  by rewrite sourceRows_permuted.
Qed.

Lemma axisSecondary_permuted (sources : list Source.t) :
  axisSecondary fileData columnSelections sources
  = axisSecondary fileData' columnSelections sources.
Proof.
  unfold axisSecondary. apply sort_proper, collect_Permutation; [|done].
  apply bind_Permutation_pointwise. intros source. unfold secondaryValues.
  by rewrite sourceRows_permuted.
Qed.

Lemma hits_permuted (sources : list Source.t) :
  hits fileData columnSelections sources ≡ₚ hits fileData' columnSelections sources.
Proof.
  unfold hits. apply bind_Permutation_pointwise. intros source. unfold rowHits.
  by rewrite sourceRows_permuted.
Qed.

Lemma hitsSecondary_permuted (secX : string) (sources : list Source.t) :
  hitsSecondary fileData columnSelections secX sources
  ≡ₚ hitsSecondary fileData' columnSelections secX sources.
Proof.
  unfold hitsSecondary. apply bind_Permutation_pointwise. intros source.
  unfold rowHitsSecondary, rowHits. by rewrite sourceRows_permuted.
Qed.

Lemma matrixOf_permuted (name : string) (sources : list Source.t)
    (marked marked' : list (string * string)) :
  marked ≡ₚ marked' →
  matrixOf fileData columnSelections name sources marked
  = matrixOf fileData' columnSelections name sources marked'.
Proof.
  intros Hmarked. unfold matrixOf, gridOf.
  rewrite <-axisY_permuted, <-axisX_permuted.
  by rewrite (foldl_markHit_Permutation _ _ marked marked').
Qed.

Lemma configOutput_permuted (config : Config.t) :
  configOutput fileData columnSelections config
  = configOutput fileData' columnSelections config.
Proof.
  unfold configOutput, mergedOutput, independentOutput. destruct (Config.merge config).
  - rewrite <-axisSecondary_permuted. destruct (_ && _).
    + apply list_fmap_ext. intros _ secX _.
      apply matrixOf_permuted, hitsSecondary_permuted.
    + f_equal. apply matrixOf_permuted, hits_permuted.
  - apply list_bind_ext; [|done]. intros source.
    pose proof (findSheet_permuted source) as H.
    destruct (findSheet fileData source) as [[s|]|],
      (findSheet fileData' source) as [[s'|]|]; try done.
    unfold sourceOutput. rewrite <-axisSecondary_permuted. destruct (_ && _).
    + apply list_fmap_ext. intros _ secX _.
      apply matrixOf_permuted, hitsSecondary_permuted.
    + f_equal. apply matrixOf_permuted, hits_permuted.
Qed.

Lemma all_resolve_permuted (matrixConfig : list Config.t) :
  all_resolve fileData matrixConfig ↔ all_resolve fileData' matrixConfig.
Proof.
  unfold all_resolve. apply Forall_iff. intros config.
  apply Forall_iff. intros source. apply resolves_permuted.
Qed.

End permuted.

(** * The claims of the specification *)






(** C9.  Every matrix [computeMatrices] returns satisfies the grid invariant:
    as many rows of cells as Y labels, in every row as many cells as X
    labels, and every cell 0 or 1. *)
Theorem grid_invariant (fileData : list File.t)
    (selectedTabs : gmap string (list string))
    (columnSelections : gmap string Selection.t) (matrixConfig : list Config.t)
    (matrices : list Matrix.t) :
  computeMatrices fileData selectedTabs columnSelections matrixConfig = Ok matrices →
  Forall cells_ok matrices.
Proof.
  apply computeMatrices_Forall. intros name sources marked.
  apply cells_ok_matrixOf.
Qed.

Lemma grid_invariant_witness :
  computeMatrices scenarioA_files ∅ scenarioA_selections [scenarioA_config]
  = Ok [scenarioA_matrix] ∧
  Forall cells_ok [scenarioA_matrix].
Proof.
  split; [vm_compute; reflexivity|].
  apply (grid_invariant scenarioA_files ∅ scenarioA_selections [scenarioA_config]).
  vm_compute. reflexivity.
Defined.

(** C7.  An independent configuration whose sources have no secondary-axis
    selection and whose sheets are all found produces one matrix for each
    source, in source order, the matrix of a source being named after its
    file name and sheet name. *)
Theorem independent_one_matrix_per_source (fileData : list File.t)
    (selectedTabs : gmap string (list string))
    (columnSelections : gmap string Selection.t) (config : Config.t) :
  Config.merge config = false →
  Forall (λ source,
            col_truthy (secondaryXColOf columnSelections source) = false ∧
            ∃ sheet, findSheet fileData source = Ok (Some sheet))
    (Config.sources config) →
  ∃ out : list Matrix.t,
    computeMatrices fileData selectedTabs columnSelections [config] = Ok out ∧
    (∀ matrices, computeConfig fileData columnSelections matrices config
                 = Ok (matrices ++ out)) ∧
    length out = length (Config.sources config) ∧
    Matrix.name <$> out
    = (λ source, Source.fileName source +:+ " - " +:+ Source.sheetName source)
        <$> Config.sources config.
Proof.
  intros Hmerge Hsources.
  assert (Hres : Forall (resolves fileData) (Config.sources config)).
  { eapply Forall_impl; [done|]. intros source [_ [sheet Hsheet]].
    unfold resolves. unfold findSheet in Hsheet.
    by destruct (fileData !! Source.fileIndex source). }
  exists (configOutput fileData columnSelections config).
  split.
  { rewrite computeMatrices_resolved by (by constructor).
    by rewrite bind_singleton. }
  split; [intros matrices; by apply computeConfig_resolved|].
  unfold configOutput, independentOutput. rewrite Hmerge.
  clear Hres Hmerge. induction Hsources as [|source sources [Hcol [sheet Hsheet]] _ IH].
  - done.
  - rewrite bind_cons, Hsheet.
    rewrite (sourceOutput_no_split _ _ _ sheet) by (done || by left).
    destruct IH as [IHlen IHnames]. rewrite length_app, fmap_app, IHlen, IHnames.
    done.
Qed.

Lemma independent_one_matrix_per_source_witness :
  Config.merge scenarioA_config = false ∧
  ∃ out : list Matrix.t,
    computeMatrices scenarioA_files ∅ scenarioA_selections [scenarioA_config]
    = Ok out ∧
    length out = 1%nat ∧
    Matrix.name <$> out = ["staff.xlsx - Roles"].
Proof.
  split; [reflexivity|].
  destruct (independent_one_matrix_per_source scenarioA_files ∅
              scenarioA_selections scenarioA_config)
    as (out & Hrun & _ & Hlen & Hnames).
  - reflexivity.
  - repeat constructor. eexists. reflexivity.
  - exists out. split; [exact Hrun|]. split; [exact Hlen|exact Hnames].
Defined.

(** C10.  A configuration with no source: in merge mode it produces one
    matrix named after the configuration, with empty axes and an empty grid;
    in independent mode it produces no matrix; in neither mode does the
    computation raise. *)
Theorem empty_sources (fileData : list File.t)
    (selectedTabs : gmap string (list string))
    (columnSelections : gmap string Selection.t)
    (name : string) (matrices : list Matrix.t) :
  computeConfig fileData columnSelections matrices (empty_config name true)
    = Ok (matrices ++ [degenerate_matrix name]) ∧
  computeConfig fileData columnSelections matrices (empty_config name false)
    = Ok matrices ∧
  computeMatrices fileData selectedTabs columnSelections [empty_config name true]
    = Ok [degenerate_matrix name] ∧
  computeMatrices fileData selectedTabs columnSelections [empty_config name false]
    = Ok [].
Proof. split_and!; reflexivity. Qed.

(** Scenario B of the specification: the sheet of Scenario A split by the
    secondary column Dept, in independent mode. *)
Example scenarioB_independent_run :
  computeMatrices scenarioB_files ∅ scenarioB_selections
    [ {| Config.name := "staff - Roles"; Config.sources := [scenarioB_roles];
         Config.merge := false |} ]
  = Ok [ {| Matrix.name := "staff.xlsx - Roles - Eng";
            Matrix.yAxis := ["Alice"; "Bob"];
            Matrix.xAxis := ["Admin"; "Editor"];
            Matrix.data := [[0; 1]; [0; 0]] |};
         {| Matrix.name := "staff.xlsx - Roles - HR";
            Matrix.yAxis := ["Alice"; "Bob"];
            Matrix.xAxis := ["Admin"; "Editor"];
            Matrix.data := [[1; 0]; [1; 0]] |} ].
Proof. vm_compute. reflexivity. Qed.

Example scenarioB_run :
  computeMatrices scenarioB_files ∅ scenarioB_selections [scenarioB_config]
  = Ok scenarioB_matrices.
Proof. vm_compute. reflexivity. Qed.




(** C8.  [computeMatrices] is a function of its arguments, so two runs on the
    same input return the same matrices, and it does not depend on the order
    of the rows: permuting the rows of any sheets of the input leaves the
    result, with its names, axes, cells and order of matrices, unchanged. *)
Theorem row_order_irrelevant (fileData fileData' : list File.t)
    (selectedTabs : gmap string (list string))
    (columnSelections : gmap string Selection.t) (matrixConfig : list Config.t) :
  rows_permuted fileData fileData' →
  computeMatrices fileData selectedTabs columnSelections matrixConfig
  = computeMatrices fileData' selectedTabs columnSelections matrixConfig.
Proof.
  intros Hperm.
  destruct (decide (all_resolve fileData matrixConfig)) as [Hall|Hall].
  - rewrite !computeMatrices_resolved
      by (done || by apply (all_resolve_permuted fileData fileData')).
    f_equal. apply list_bind_ext; [|done]. intros config.
    by apply configOutput_permuted.
  - rewrite !computeMatrices_unresolved; [done| |done].
    by rewrite <-(all_resolve_permuted fileData fileData').
Qed.

Lemma row_order_irrelevant_witness :
  rows_permuted scenarioA_files scenarioA_files_reversed ∧
  computeMatrices scenarioA_files ∅ scenarioA_selections [scenarioA_config]
  = computeMatrices scenarioA_files_reversed ∅ scenarioA_selections [scenarioA_config].
Proof.
  assert (Hperm : rows_permuted scenarioA_files scenarioA_files_reversed).
  { repeat constructor. simpl. symmetry. apply reverse_Permutation. }
  split; [exact Hperm|].
  exact (row_order_irrelevant scenarioA_files scenarioA_files_reversed ∅
           scenarioA_selections [scenarioA_config] Hperm).
Defined.

(** ** Coercion of the raw values *)

Example trim_Alice : trim "  Alice  " = "Alice".
Proof. reflexivity. Qed.

Example cellValue_number :
  cellValue {[ "Level" := VNum 7 ]} (Some "Level") = "7".
Proof. vm_compute. reflexivity. Qed.

(** A truthy raw value is coerced to a string and trimmed. *)
Lemma cellValue_truthy (r : row) (col : option string) :
  truthy (row_get r col) = true →
  cellValue r col = trim (js_String (row_get r col)).
Proof. intros Hv. unfold cellValue, js_or. by rewrite Hv. Qed.





(** C4.  The number 0 in a selected column: [String(0)] trimmed is the
    string 0, but the code replaces the falsy 0 by the empty string before the
    coercion, so the value is discarded: it is no axis label and marks no
    cell. *)
Theorem zero_is_discarded :
  trim (js_String (VNum 0)) = "0" ∧
  cellValue {[ "Level" := VNum 0; "Role" := VStr "Admin" ]} (Some "Level")
    = EmptyString ∧
  computeMatrices zero_files ∅ zero_selections [zero_config]
  = Ok [ {| Matrix.name := "levels.xlsx - Levels";
            Matrix.yAxis := [];
            Matrix.xAxis := ["Admin"];
            Matrix.data := [] |} ].
Proof. split_and!; vm_compute; reflexivity. Qed.

(** C5.  A source whose sheet name is not in its file is skipped, in both
    modes; a source whose file is not in [fileData] makes the whole
    computation raise, in both modes, and the matrix of the other source is
    not produced. *)
Theorem stale_file_raises :
  computeMatrices scenarioA_files ∅ scenarioA_selections
    [stale_config stale_sheet_source false] = Ok [scenarioA_matrix] ∧
  computeMatrices scenarioA_files ∅ scenarioA_selections
    [stale_config stale_sheet_source true]
  = Ok [ {| Matrix.name := "staff - Roles";
            Matrix.yAxis := Matrix.yAxis scenarioA_matrix;
            Matrix.xAxis := Matrix.xAxis scenarioA_matrix;
            Matrix.data := Matrix.data scenarioA_matrix |} ] ∧
  computeMatrices scenarioA_files ∅ scenarioA_selections
    [stale_config stale_file_source false] = TypeError ∧
  computeMatrices scenarioA_files ∅ scenarioA_selections
    [stale_config stale_file_source true] = TypeError.
Proof. split_and!; vm_compute; reflexivity. Qed.




(** * Further properties of [computeMatrices] *)

(** ** When it raises, and how configurations compose *)

Lemma all_resolve_app (fileData : list File.t) (configs1 configs2 : list Config.t) :
  all_resolve fileData (configs1 ++ configs2) ↔
  all_resolve fileData configs1 ∧ all_resolve fileData configs2.
Proof. apply Forall_app. Qed.

Lemma not_all_resolve (fileData : list File.t) (matrixConfig : list Config.t) :
  ¬ all_resolve fileData matrixConfig ↔
  ∃ config source,
    config ∈ matrixConfig ∧ source ∈ Config.sources config ∧
    (length fileData ≤ Source.fileIndex source)%nat.
Proof.
  unfold all_resolve. split.
  - intros Hnot. apply not_Forall_Exists in Hnot; [|apply _].
    apply Exists_exists in Hnot as (config & Hconfig & Hsources).
    apply not_Forall_Exists in Hsources; [|apply _].
    apply Exists_exists in Hsources as (source & Hsource & Hres).
    exists config, source. split_and!; [done..|].
    apply lookup_ge_None, eq_None_not_Some. exact Hres.
  - intros (config & source & Hconfig & Hsource & Hlen) Hall.
    rewrite Forall_forall in Hall. specialize (Hall config Hconfig).
    rewrite Forall_forall in Hall. specialize (Hall source Hsource).
    apply lookup_lt_is_Some in Hall. lia.
Qed.

(** X1.  [computeMatrices] raises exactly when some source of some
    configuration has a file index past the end of [fileData]; a sheet name
    that is not found, a column that is absent and a selection that is
    missing never make it raise. *)
Theorem raises_iff_file_missing (fileData : list File.t)
    (selectedTabs : gmap string (list string))
    (columnSelections : gmap string Selection.t) (matrixConfig : list Config.t) :
  computeMatrices fileData selectedTabs columnSelections matrixConfig = TypeError ↔
  ∃ config source,
    config ∈ matrixConfig ∧ source ∈ Config.sources config ∧
    (length fileData ≤ Source.fileIndex source)%nat.
Proof.
  rewrite <-not_all_resolve. split.
  - intros Hrun Hall. by rewrite computeMatrices_resolved in Hrun.
  - apply computeMatrices_unresolved.
Qed.

(** X2.  The matrices of a list of configurations are those of its first
    part followed by those of its second part: what a configuration produces
    does not depend on the configurations around it, and the computation
    raises when one of the two parts does. *)
Theorem configurations_compose (fileData : list File.t)
    (selectedTabs : gmap string (list string))
    (columnSelections : gmap string Selection.t)
    (configs1 configs2 : list Config.t) :
  computeMatrices fileData selectedTabs columnSelections (configs1 ++ configs2)
  = matrices1 ← computeMatrices fileData selectedTabs columnSelections configs1;
    matrices2 ← computeMatrices fileData selectedTabs columnSelections configs2;
    Ok (matrices1 ++ matrices2).
Proof.
  destruct (decide (all_resolve fileData configs1)) as [H1|H1];
    destruct (decide (all_resolve fileData configs2)) as [H2|H2].
  - rewrite !computeMatrices_resolved by (done || by apply all_resolve_app).
    simpl. by rewrite bind_app.
  - rewrite (computeMatrices_resolved _ _ _ configs1) by done.
    rewrite (computeMatrices_unresolved _ _ _ configs2) by done.
    apply computeMatrices_unresolved. rewrite all_resolve_app. tauto.
  - rewrite (computeMatrices_unresolved _ _ _ configs1) by done.
    apply computeMatrices_unresolved. rewrite all_resolve_app. tauto.
  - rewrite (computeMatrices_unresolved _ _ _ configs1) by done.
    apply computeMatrices_unresolved. rewrite all_resolve_app. tauto.
Qed.

(** ** Sources whose sheet is not found are skipped *)

Lemma bind_filter_nil {A B : Type} (P : A → Prop) `{∀ a, Decision (P a)}
    (f : A → list B) (l : list A) :
  (∀ a, ¬ P a → f a = []) → filter P l ≫= f = l ≫= f.
Proof.
  intros Hf. induction l as [|a l IH]; [done|].
  rewrite filter_cons, !bind_cons. case_decide as Ha.
  - by rewrite bind_cons, IH.
  - by rewrite (Hf a Ha), IH.
Qed.

Lemma sourceRows_missing (fileData : list File.t) (source : Source.t) :
  sheetMissing fileData source ≠ false → sourceRows fileData source = [].
Proof.
  unfold sheetMissing, sourceRows.
  by destruct (findSheet fileData source) as [[sheet|]|].
Qed.

(** A merged configuration with a secondary value has a source with a
    secondary-axis selection. *)
Lemma axisSecondary_hasSecondaryX (fileData : list File.t)
    (columnSelections : gmap string Selection.t) (config : Config.t) :
  axisSecondary fileData columnSelections (Config.sources config) ≠ [] →
  hasSecondaryX columnSelections config = true.
Proof.
  intros Hsecs.
  destruct (axisSecondary fileData columnSelections (Config.sources config))
    as [|s secs] eqn:Heq; [done|].
  assert (Hs : s ∈ axisSecondary fileData columnSelections (Config.sources config))
    by (rewrite Heq; apply list_elem_of_here).
  apply elem_of_axisSecondary in Hs as (_ & source & r & Hsource & _ & Hsec).
  unfold hasSecondaryX. apply existsb_exists. exists source.
  split; [by apply list_elem_of_In|].
  unfold secondaryValue, secondaryXColOf in Hsec.
  by destruct (col_truthy (selected columnSelections source Selection.secondaryXAxis)).
Qed.

Lemma mergedOutput_condition (fileData : list File.t)
    (columnSelections : gmap string Selection.t) (config : Config.t) :
  hasSecondaryX columnSelections config
    && bool_decide (axisSecondary fileData columnSelections (Config.sources config) ≠ [])
  = bool_decide (axisSecondary fileData columnSelections (Config.sources config) ≠ []).
Proof.
  case_bool_decide as Hsecs; [|apply andb_false_r].
  by rewrite (axisSecondary_hasSecondaryX fileData).
Qed.

Section missing.
Context (fileData : list File.t) (columnSelections : gmap string Selection.t).

Lemma axisY_dropMissing (sources : list Source.t) :
  axisY fileData columnSelections
    (filter (λ source, sheetMissing fileData source = false) sources)
  = axisY fileData columnSelections sources.
Proof.
  unfold axisY. rewrite bind_filter_nil; [done|].
  intros source Hmissing. by rewrite sourceRows_missing.
Qed.

Lemma axisX_dropMissing (sources : list Source.t) :
  axisX fileData columnSelections
    (filter (λ source, sheetMissing fileData source = false) sources)
  = axisX fileData columnSelections sources.
Proof.
  unfold axisX. rewrite bind_filter_nil; [done|].
  intros source Hmissing. by rewrite sourceRows_missing.
Qed.

Lemma axisSecondary_dropMissing (sources : list Source.t) :
  axisSecondary fileData columnSelections
    (filter (λ source, sheetMissing fileData source = false) sources)
  = axisSecondary fileData columnSelections sources.
Proof.
  unfold axisSecondary. rewrite bind_filter_nil; [done|].
  intros source Hmissing. by rewrite sourceRows_missing.
Qed.

Lemma hits_dropMissing (sources : list Source.t) :
  hits fileData columnSelections
    (filter (λ source, sheetMissing fileData source = false) sources)
  = hits fileData columnSelections sources.
Proof.
  unfold hits. rewrite bind_filter_nil; [done|].
  intros source Hmissing. by rewrite sourceRows_missing.
Qed.

Lemma hitsSecondary_dropMissing (secX : string) (sources : list Source.t) :
  hitsSecondary fileData columnSelections secX
    (filter (λ source, sheetMissing fileData source = false) sources)
  = hitsSecondary fileData columnSelections secX sources.
Proof.
  unfold hitsSecondary. rewrite bind_filter_nil; [done|].
  intros source Hmissing. by rewrite sourceRows_missing.
Qed.

Lemma matrixOf_dropMissing (name : string) (sources : list Source.t)
    (marked : list (string * string)) :
  matrixOf fileData columnSelections name
    (filter (λ source, sheetMissing fileData source = false) sources) marked
  = matrixOf fileData columnSelections name sources marked.
Proof. unfold matrixOf, gridOf. by rewrite axisY_dropMissing, axisX_dropMissing. Qed.

Lemma configOutput_dropMissing (config : Config.t) :
  configOutput fileData columnSelections (dropMissing fileData config)
  = configOutput fileData columnSelections config.
Proof.
  unfold configOutput. simpl. destruct (Config.merge config).
  - unfold mergedOutput.
    rewrite (mergedOutput_condition _ _ config),
      (mergedOutput_condition _ _ (dropMissing fileData config)).
    simpl. rewrite axisSecondary_dropMissing. case_bool_decide.
    + apply list_fmap_ext. intros i secX Hi.
      by rewrite matrixOf_dropMissing, hitsSecondary_dropMissing.
    + by rewrite matrixOf_dropMissing, hits_dropMissing.
  - unfold independentOutput. simpl. apply bind_filter_nil.
    intros source Hmissing. unfold sheetMissing in Hmissing.
    by destruct (findSheet fileData source) as [[sheet|]|].
Qed.

Lemma all_resolve_dropMissing (matrixConfig : list Config.t) :
  all_resolve fileData (dropMissing fileData <$> matrixConfig) ↔
  all_resolve fileData matrixConfig.
Proof.
  unfold all_resolve. rewrite Forall_fmap. apply Forall_iff. intros config.
  simpl. rewrite !Forall_forall. split.
  - intros Hall source Hsource.
    destruct (decide (resolves fileData source)) as [Hres|Hres]; [done|].
    apply Hall, list_elem_of_filter. split; [|done].
    unfold sheetMissing. by rewrite findSheet_unresolved.
  - intros Hall source [_ Hsource]%list_elem_of_filter. by apply Hall.
Qed.

End missing.

(** X3.  A source whose file exists and has no sheet of the source's name
    contributes nothing, in either mode: removing such sources from every
    configuration leaves the result of [computeMatrices] unchanged. *)
Theorem missing_sheets_are_skipped (fileData : list File.t)
    (selectedTabs : gmap string (list string))
    (columnSelections : gmap string Selection.t) (matrixConfig : list Config.t) :
  computeMatrices fileData selectedTabs columnSelections matrixConfig
  = computeMatrices fileData selectedTabs columnSelections
      (dropMissing fileData <$> matrixConfig).
Proof.
  destruct (decide (all_resolve fileData matrixConfig)) as [Hall|Hall].
  - rewrite !computeMatrices_resolved by (done || by apply all_resolve_dropMissing).
    f_equal. rewrite list_fmap_bind. apply list_bind_ext; [|done].
    intros config. simpl. by rewrite configOutput_dropMissing.
  - rewrite !computeMatrices_unresolved; [done| |done].
    by rewrite all_resolve_dropMissing.
Qed.

(** ** The two branches the claims leave out *)





(** X6.  On a configuration with a single source whose sheet is found, the
    merge flag changes the names of the matrices only: both modes produce
    the same number of matrices, in the same order, with the same axes and
    the same cells. *)
Theorem merge_flag_renames_only (fileData : list File.t)
    (selectedTabs : gmap string (list string))
    (columnSelections : gmap string Selection.t)
    (name : string) (source : Source.t) (sheet : Sheet.t) :
  findSheet fileData source = Ok (Some sheet) →
  ∃ merged independent : list Matrix.t,
    computeMatrices fileData selectedTabs columnSelections
      [single_config name source true] = Ok merged ∧
    computeMatrices fileData selectedTabs columnSelections
      [single_config name source false] = Ok independent ∧
    contentOf <$> merged = contentOf <$> independent.
Proof.
  intros Hsheet.
  assert (Hres : ∀ merge, all_resolve fileData [single_config name source merge]).
  { intros merge. repeat constructor. unfold resolves. unfold findSheet in Hsheet.
    by destruct (fileData !! Source.fileIndex source). }
  exists (mergedOutput fileData columnSelections (single_config name source true)),
    (sourceOutput fileData columnSelections source).
  split_and!.
  - rewrite computeMatrices_resolved by done. by rewrite bind_singleton.
  - rewrite computeMatrices_resolved by done. rewrite bind_singleton.
    unfold configOutput, independentOutput, single_config.
    cbn [Config.merge Config.sources]. by rewrite bind_singleton, Hsheet.
  - unfold mergedOutput, sourceOutput, hasSecondaryX, single_config.
    cbn [Config.merge Config.sources Config.name existsb].
    rewrite orb_false_r. fold (secondaryXColOf columnSelections source).
    destruct (_ && _).
    + rewrite <-!list_fmap_compose. by apply list_fmap_ext.
    + done.
Qed.

Lemma merge_flag_renames_only_witness :
  findSheet scenarioB_files scenarioB_roles
  = Ok (Some {| Sheet.name := "Roles"; Sheet.headers := ["Emp"; "Role"; "Dept"];
                Sheet.data := sourceRows scenarioB_files scenarioB_roles |}) ∧
  ∃ merged independent : list Matrix.t,
    computeMatrices scenarioB_files ∅ scenarioB_selections
      [single_config "All" scenarioB_roles true] = Ok merged ∧
    computeMatrices scenarioB_files ∅ scenarioB_selections
      [single_config "All" scenarioB_roles false] = Ok independent ∧
    contentOf <$> merged = contentOf <$> independent.
Proof.
  split; [vm_compute; reflexivity|].
  apply (merge_flag_renames_only scenarioB_files ∅ scenarioB_selections "All"
           scenarioB_roles
           {| Sheet.name := "Roles"; Sheet.headers := ["Emp"; "Role"; "Dept"];
              Sheet.data := sourceRows scenarioB_files scenarioB_roles |}).
  vm_compute. reflexivity.
Defined.

(** ** The result depends on the set of rows only *)

Lemma grid_ok_cell (ny nx : nat) (data : list (list Z)) (i j : nat) :
  grid_ok ny nx data → (i < ny)%nat → (j < nx)%nat →
  cell data i j = Some 0 ∨ cell data i j = Some 1.
Proof.
  intros [Hlen Hrows] Hi Hj. unfold cell.
  destruct (lookup_lt_is_Some_2 data i) as [cells Hcells]; [lia|].
  rewrite Hcells. simpl.
  destruct (Forall_lookup_1 _ _ _ _ Hrows Hcells) as [Hlen' H01].
  destruct (lookup_lt_is_Some_2 cells j) as [c Hc]; [lia|].
  rewrite Hc. destruct (Forall_lookup_1 _ _ _ _ H01 Hc) as [->| ->]; auto.
Qed.

(** Grids of the same dimensions with the same cells are equal. *)
Lemma grid_ext (ny nx : nat) (d1 d2 : list (list Z)) :
  grid_ok ny nx d1 → grid_ok ny nx d2 →
  (∀ i j, (i < ny)%nat → (j < nx)%nat → cell d1 i j = cell d2 i j) → d1 = d2.
Proof.
  intros [Hlen1 Hrows1] [Hlen2 Hrows2] Hcell. apply list_eq. intros i.
  destruct (decide (i < ny)%nat) as [Hi|Hi].
  - destruct (lookup_lt_is_Some_2 d1 i) as [c1 Hc1]; [lia|].
    destruct (lookup_lt_is_Some_2 d2 i) as [c2 Hc2]; [lia|].
    rewrite Hc1, Hc2. f_equal.
    destruct (Forall_lookup_1 _ _ _ _ Hrows1 Hc1) as [Hl1 _].
    destruct (Forall_lookup_1 _ _ _ _ Hrows2 Hc2) as [Hl2 _].
    apply list_eq. intros j. destruct (decide (j < nx)%nat) as [Hj|Hj].
    + specialize (Hcell i j Hi Hj). unfold cell in Hcell.
      by rewrite Hc1, Hc2 in Hcell.
    + by rewrite !lookup_ge_None_2 by lia.
  - by rewrite !lookup_ge_None_2 by lia.
Qed.

(** Two axes with the same labels are equal. *)
Lemma axis_ext (axis axis' : list string) :
  axis_ok axis → axis_ok axis' → (∀ y, y ∈ axis ↔ y ∈ axis') → axis = axis'.
Proof.
  intros (_ & Hnodup & Hsorted) (_ & Hnodup' & Hsorted') Hmem.
  apply (Sorted_unique String.le); [done..|]. by apply NoDup_Permutation.
Qed.

(** The grid over two axes depends on the set of marked pairs only. *)
Lemma foldl_markHit_ext (sortedY sortedX : list string)
    (marked marked' : list (string * string)) :
  axis_ok sortedY → axis_ok sortedX →
  (∀ p, p ∈ marked ↔ p ∈ marked') →
  foldl (markHit sortedY sortedX) (emptyGrid sortedY sortedX) marked
  = foldl (markHit sortedY sortedX) (emptyGrid sortedY sortedX) marked'.
Proof.
  intros (HY0 & HY & _) (HX0 & HX & _) Hmarked.
  apply (grid_ext (length sortedY) (length sortedX));
    [apply grid_ok_foldl_markHit, grid_ok_emptyGrid..|].
  intros i j Hi Hj.
  destruct (lookup_lt_is_Some_2 sortedY i Hi) as [y Hy].
  destruct (lookup_lt_is_Some_2 sortedX j Hj) as [x Hx].
  assert (Hy0 : y ≠ EmptyString)
    by (intros ->; apply HY0; by eapply list_elem_of_lookup_2).
  assert (Hx0 : x ≠ EmptyString)
    by (intros ->; apply HX0; by eapply list_elem_of_lookup_2).
  assert (Hone : ∀ l,
    cell (foldl (markHit sortedY sortedX) (emptyGrid sortedY sortedX) l) i j = Some 1
    ↔ (y, x) ∈ l).
  { intros l. rewrite (cell_foldl_markHit _ _ _ _ i j y x); try done.
    - rewrite cell_emptyGrid by done. split; [by intros [?|?]|by right].
    - rewrite cell_emptyGrid by done. by eexists. }
  pose proof (Hone marked) as H1. pose proof (Hone marked') as H2.
  rewrite <-Hmarked in H2.
  destruct (grid_ok_cell (length sortedY) (length sortedX)
              (foldl (markHit sortedY sortedX) (emptyGrid sortedY sortedX) marked)
              i j) as [Hc|Hc];
    [apply grid_ok_foldl_markHit, grid_ok_emptyGrid|done..| |];
  destruct (grid_ok_cell (length sortedY) (length sortedX)
              (foldl (markHit sortedY sortedX) (emptyGrid sortedY sortedX) marked')
              i j) as [Hc'|Hc'];
    try (apply grid_ok_foldl_markHit, grid_ok_emptyGrid); try done;
    rewrite Hc, Hc'; try done.
  - apply H2, H1 in Hc'. congruence.
  - apply H1, H2 in Hc. congruence.
Qed.

Section same_set.
Context (fileData fileData' : list File.t) (columnSelections : gmap string Selection.t).
Context (Hsame : rows_same_set fileData fileData').

Lemma resolves_same_set (source : Source.t) :
  resolves fileData source ↔ resolves fileData' source.
Proof.
  unfold resolves. rewrite !lookup_lt_is_Some.
  by rewrite (Forall2_length _ _ _ Hsame).
Qed.

Lemma find_same_set (name : string) (sheets sheets' : list Sheet.t) :
  Forall2 sheet_same_rows sheets sheets' →
  option_Forall2 sheet_same_rows
    (List.find (λ s, bool_decide (Sheet.name s = name)) sheets)
    (List.find (λ s, bool_decide (Sheet.name s = name)) sheets').
Proof.
  induction 1 as [|s s' sheets sheets' Hs _ IH]; simpl; [constructor|].
  destruct Hs as (Hname & Hheaders & Hdata). rewrite <-Hname.
  case_bool_decide; [|done]. by constructor.
Qed.

Lemma findSheet_same_set (source : Source.t) :
  match findSheet fileData source, findSheet fileData' source with
  | Ok (Some s), Ok (Some s') => sheet_same_rows s s'
  | Ok None, Ok None => True
  | TypeError, TypeError => True
  | _, _ => False
  end.
Proof.
  unfold findSheet.
  destruct (fileData !! Source.fileIndex source) as [file|] eqn:Hfile.
  - destruct (Forall2_lookup_l _ _ _ _ _ Hsame Hfile) as (file' & -> & _ & Hsheets).
    by destruct (find_same_set (Source.sheetName source) _ _ Hsheets).
  - rewrite (proj2 (eq_None_not_Some _)); [done|].
    intros Hsome. apply resolves_same_set in Hsome.
    unfold resolves in Hsome. rewrite Hfile in Hsome. by destruct Hsome.
Qed.

Lemma sourceRows_same_set (source : Source.t) (r : row) :
  r ∈ sourceRows fileData source ↔ r ∈ sourceRows fileData' source.
Proof.
  unfold sourceRows. pose proof (findSheet_same_set source) as H.
  destruct (findSheet fileData source) as [[s|]|],
    (findSheet fileData' source) as [[s'|]|]; try done.
  by destruct H as (_ & _ & ?).
Qed.

Lemma axisY_same_set (sources : list Source.t) :
  axisY fileData columnSelections sources = axisY fileData' columnSelections sources.
Proof.
  apply axis_ext; [apply axis_ok_sort_collect..|]. intros y.
  rewrite !elem_of_axisY. by setoid_rewrite sourceRows_same_set.
Qed.

Lemma axisX_same_set (sources : list Source.t) :
  axisX fileData columnSelections sources = axisX fileData' columnSelections sources.
Proof.
  apply axis_ext; [apply axis_ok_sort_collect..|]. intros x.
  rewrite !elem_of_axisX. by setoid_rewrite sourceRows_same_set.
Qed.

Lemma axisSecondary_same_set (sources : list Source.t) :
  axisSecondary fileData columnSelections sources
  = axisSecondary fileData' columnSelections sources.
Proof.
  apply axis_ext; [apply axis_ok_sort_collect..|]. intros s.
  rewrite !elem_of_axisSecondary. by setoid_rewrite sourceRows_same_set.
Qed.

Lemma matrixOf_hits_same_set (name : string) (sources : list Source.t) :
  matrixOf fileData columnSelections name sources
    (hits fileData columnSelections sources)
  = matrixOf fileData' columnSelections name sources
      (hits fileData' columnSelections sources).
Proof.
  unfold matrixOf, gridOf. rewrite <-axisY_same_set, <-axisX_same_set. f_equal.
  apply foldl_markHit_ext; [apply axis_ok_sort_collect..|]. intros [y x].
  rewrite !elem_of_hits. by setoid_rewrite sourceRows_same_set.
Qed.

Lemma matrixOf_hitsSecondary_same_set (name secX : string) (sources : list Source.t) :
  matrixOf fileData columnSelections name sources
    (hitsSecondary fileData columnSelections secX sources)
  = matrixOf fileData' columnSelections name sources
      (hitsSecondary fileData' columnSelections secX sources).
Proof.
  unfold matrixOf, gridOf. rewrite <-axisY_same_set, <-axisX_same_set. f_equal.
  apply foldl_markHit_ext; [apply axis_ok_sort_collect..|]. intros [y x].
  rewrite !elem_of_hitsSecondary. by setoid_rewrite sourceRows_same_set.
Qed.

Lemma configOutput_same_set (config : Config.t) :
  configOutput fileData columnSelections config
  = configOutput fileData' columnSelections config.
Proof.
  unfold configOutput, mergedOutput, independentOutput. destruct (Config.merge config).
  - rewrite <-axisSecondary_same_set. destruct (_ && _).
    + apply list_fmap_ext. intros i secX Hi. apply matrixOf_hitsSecondary_same_set.
    + f_equal. apply matrixOf_hits_same_set.
  - apply list_bind_ext; [|done]. intros source.
    pose proof (findSheet_same_set source) as H.
    destruct (findSheet fileData source) as [[s|]|],
      (findSheet fileData' source) as [[s'|]|]; try done.
    unfold sourceOutput. rewrite <-axisSecondary_same_set. destruct (_ && _).
    + apply list_fmap_ext. intros i secX Hi. apply matrixOf_hitsSecondary_same_set.
    + f_equal. apply matrixOf_hits_same_set.
Qed.

Lemma all_resolve_same_set (matrixConfig : list Config.t) :
  all_resolve fileData matrixConfig ↔ all_resolve fileData' matrixConfig.
Proof.
  unfold all_resolve. apply Forall_iff. intros config.
  apply Forall_iff. intros source. apply resolves_same_set.
Qed.

End same_set.

(** X7.  The result depends on the set of rows of each sheet only: sheets
    that hold the same rows, in any order and with any repetition, give the
    same matrices.  A row given twice marks its cell once and adds its labels
    once. *)
Theorem rows_are_a_set (fileData fileData' : list File.t)
    (selectedTabs : gmap string (list string))
    (columnSelections : gmap string Selection.t) (matrixConfig : list Config.t) :
  rows_same_set fileData fileData' →
  computeMatrices fileData selectedTabs columnSelections matrixConfig
  = computeMatrices fileData' selectedTabs columnSelections matrixConfig.
Proof.
  intros Hsame.
  destruct (decide (all_resolve fileData matrixConfig)) as [Hall|Hall].
  - rewrite !computeMatrices_resolved
      by (done || by apply (all_resolve_same_set fileData fileData')).
    f_equal. apply list_bind_ext; [|done]. intros config.
    by apply configOutput_same_set.
  - rewrite !computeMatrices_unresolved; [done| |done].
    by rewrite <-(all_resolve_same_set fileData fileData').
Qed.

Lemma rows_are_a_set_witness :
  rows_same_set scenarioA_files scenarioA_files_repeated ∧
  computeMatrices scenarioA_files ∅ scenarioA_selections [scenarioA_config]
  = computeMatrices scenarioA_files_repeated ∅ scenarioA_selections [scenarioA_config].
Proof.
  assert (Hsame : rows_same_set scenarioA_files scenarioA_files_repeated).
  { constructor; [|constructor]. split; [reflexivity|].
    constructor; [|constructor]. split; [reflexivity|]. split; [reflexivity|].
    intros r. cbn [Sheet.data]. rewrite elem_of_app. tauto. }
  split; [exact Hsame|].
  exact (rows_are_a_set scenarioA_files scenarioA_files_repeated ∅
           scenarioA_selections [scenarioA_config] Hsame).
Defined.

(** ** Labels are trimmed *)

Lemma string_app_cons (c : ascii) (s t : string) :
  String c s +:+ t = String c (s +:+ t).
Proof. reflexivity. Qed.

Lemma string_app_nil_r (s : string) : s +:+ EmptyString = s.
Proof. induction s as [|c s IH]; [done|]. by rewrite string_app_cons, IH. Qed.

Lemma string_app_assoc (s1 s2 s3 : string) :
  (s1 +:+ s2) +:+ s3 = s1 +:+ (s2 +:+ s3).
Proof.
  induction s1 as [|c s1 IH]; [done|]. by rewrite !string_app_cons, IH.
Qed.

Lemma rev_app_spec (s1 s2 : string) :
  String.rev_app s1 s2 = String.rev s1 +:+ s2.
Proof.
  revert s2. induction s1 as [|c s1 IH]; intros s2; [done|].
  unfold String.rev. cbn [String.rev_app].
  rewrite (IH (String c s2)), (IH (String c EmptyString)).
  by rewrite string_app_assoc.
Qed.

Lemma rev_cons (c : ascii) (s : string) :
  String.rev (String c s) = String.rev s +:+ String c EmptyString.
Proof. unfold String.rev at 1. cbn [String.rev_app]. apply rev_app_spec. Qed.

Lemma rev_app_distr (s1 s2 : string) :
  String.rev (s1 +:+ s2) = String.rev s2 +:+ String.rev s1.
Proof.
  induction s1 as [|c s1 IH].
  - by rewrite string_app_nil_r.
  - by rewrite string_app_cons, !rev_cons, IH, string_app_assoc.
Qed.

Lemma rev_involutive (s : string) : String.rev (String.rev s) = s.
Proof.
  induction s as [|c s IH]; [done|].
  by rewrite rev_cons, rev_app_distr, IH.
Qed.

Lemma trimStart_starts_clean (s : string) : starts_clean (trimStart s).
Proof.
  induction s as [|c s IH]; simpl; [done|].
  destruct (is_white_space c) eqn:Hc; [done|]. simpl. done.
Qed.

Lemma trimStart_fixed (s : string) : starts_clean s → trimStart s = s.
Proof. destruct s as [|c s]; simpl; [done|]. by intros ->. Qed.

(** [trimStart] removes a prefix. *)
Lemma trimStart_prefix (s : string) : ∃ w, s = w +:+ trimStart s.
Proof.
  induction s as [|c s [w IH]]; simpl.
  - by exists EmptyString.
  - destruct (is_white_space c).
    + exists (String c w). by rewrite string_app_cons, <-IH.
    + by exists EmptyString.
Qed.

(** [trimEnd] removes a suffix. *)
Lemma trimEnd_suffix (s : string) : ∃ w, s = trimEnd s +:+ w.
Proof.
  unfold trimEnd. destruct (trimStart_prefix (String.rev s)) as [w Hw].
  exists (String.rev w).
  by rewrite <-rev_app_distr, <-Hw, rev_involutive.
Qed.

Lemma trimEnd_starts_clean (s : string) : starts_clean s → starts_clean (trimEnd s).
Proof.
  intros Hs. destruct (trimEnd_suffix s) as [w Hw].
  destruct (trimEnd s) as [|c t]; [done|].
  rewrite Hw in Hs. exact Hs.
Qed.

Lemma trimEnd_idemp (s : string) : trimEnd (trimEnd s) = trimEnd s.
Proof.
  unfold trimEnd. rewrite rev_involutive. f_equal.
  apply trimStart_fixed, trimStart_starts_clean.
Qed.

(** [trim] is idempotent: what it returns is trimmed. *)
Lemma trim_trimmed (s : string) : trimmed (trim s).
Proof.
  unfold trimmed, trim.
  rewrite (trimStart_fixed (trimEnd (trimStart s)))
    by apply trimEnd_starts_clean, trimStart_starts_clean.
  apply trimEnd_idemp.
Qed.

Lemma cellValue_trimmed (r : row) (col : option string) : trimmed (cellValue r col).
Proof. apply trim_trimmed. Qed.

Lemma labels_trimmed_matrixOf (fileData : list File.t)
    (columnSelections : gmap string Selection.t) (name : string)
    (sources : list Source.t) (marked : list (string * string)) :
  labels_trimmed (matrixOf fileData columnSelections name sources marked).
Proof.
  split; apply Forall_forall; simpl.
  - intros y (_ & source & r & _ & _ & <-)%elem_of_axisY. apply cellValue_trimmed.
  - intros x (_ & source & r & _ & _ & <-)%elem_of_axisX. apply cellValue_trimmed.
Qed.

(** X8.  Every label on the axes of every matrix [computeMatrices] returns
    is trimmed: it neither starts nor ends with white space, so values that
    differ by surrounding white space only share one label. *)
Theorem labels_are_trimmed (fileData : list File.t)
    (selectedTabs : gmap string (list string))
    (columnSelections : gmap string Selection.t) (matrixConfig : list Config.t)
    (matrices : list Matrix.t) :
  computeMatrices fileData selectedTabs columnSelections matrixConfig = Ok matrices →
  Forall labels_trimmed matrices.
Proof.
  apply computeMatrices_Forall. intros name sources marked.
  apply labels_trimmed_matrixOf.
Qed.

Lemma labels_are_trimmed_witness :
  computeMatrices scenarioA_files ∅ scenarioA_selections [scenarioA_config]
  = Ok [scenarioA_matrix] ∧
  Forall labels_trimmed [scenarioA_matrix].
Proof.
  split; [vm_compute; reflexivity|].
  apply (labels_are_trimmed scenarioA_files ∅ scenarioA_selections
           [scenarioA_config]).
  vm_compute. reflexivity.
Defined.

(** * Properties of [exportToExcel] *)

Lemma forEachIndexed_exportRows (matrix : Matrix.t) (labels : list string)
    (i : nat) (rows : list (list value)) :
  (i ≤ length (Matrix.data matrix))%nat →
  forEachIndexed (λ rows yVal yIdx,
      match Matrix.data matrix !! yIdx with
      | None => TypeError
      | Some cells => Ok (rows ++ [dataRow yVal cells])
      end) i rows labels
  = if decide (i + length labels ≤ length (Matrix.data matrix))%nat
    then Ok (rows ++ zip_with dataRow labels (drop i (Matrix.data matrix)))
    else TypeError.
Proof.
  revert i rows. induction labels as [|y labels IH]; intros i rows Hi.
  - simpl. rewrite decide_True by lia. by rewrite app_nil_r.
  - cbn [forEachIndexed length].
    destruct (Matrix.data matrix !! i) as [cells|] eqn:Hcells.
    + assert (i < length (Matrix.data matrix))%nat by (by eapply lookup_lt_Some).
      simpl. rewrite IH by lia. rewrite (drop_S _ cells i) by done.
      destruct (decide (S i + length labels ≤ length (Matrix.data matrix))%nat).
      * rewrite decide_True by lia. simpl. by rewrite <-(assoc_L (++)).
      * by rewrite decide_False by lia.
    + apply lookup_ge_None in Hcells. simpl. by rewrite decide_False by lia.
Qed.

(** The table of a matrix, in closed form. *)
Lemma exportRows_eq (matrix : Matrix.t) :
  exportRows matrix
  = if decide (length (Matrix.yAxis matrix) ≤ length (Matrix.data matrix))%nat
    then Ok (headerRow matrix
               :: zip_with dataRow (Matrix.yAxis matrix) (Matrix.data matrix))
    else TypeError.
Proof.
  unfold exportRows. rewrite forEachIndexed_exportRows by lia.
  by destruct (decide _).
Qed.

(** X9.  The export of a matrix raises exactly when the matrix has fewer
    rows of cells than Y labels; rows of cells beyond the Y labels are left
    out of the table without an error. *)
Theorem export_raises_iff (matrix : Matrix.t) :
  (exportRows matrix = TypeError ↔
   (length (Matrix.data matrix) < length (Matrix.yAxis matrix))%nat) ∧
  ((length (Matrix.yAxis matrix) ≤ length (Matrix.data matrix))%nat →
   exportRows matrix
   = Ok (headerRow matrix
           :: zip_with dataRow (Matrix.yAxis matrix)
                (take (length (Matrix.yAxis matrix)) (Matrix.data matrix)))).
Proof.
  rewrite exportRows_eq. split.
  - case_decide; split; (done || lia).
  - intros Hlen. rewrite decide_True by done. do 2 f_equal.
    by rewrite zip_with_take_r.
Qed.






Lemma dataRow_inj (y y' : string) (cells cells' : list Z) :
  dataRow y cells = dataRow y' cells' → y = y' ∧ cells = cells'.
Proof.
  unfold dataRow. intros [= -> Hcells]. split; [done|].
  revert cells' Hcells. induction cells as [|c cells IH]; intros [|c' cells'] Hcells;
    simplify_eq/=; [done|]. f_equal. by apply IH.
Qed.

Lemma zip_with_dataRow_inj (ys ys' : list string) (data data' : list (list Z)) :
  length data = length ys → length data' = length ys' →
  zip_with dataRow ys data = zip_with dataRow ys' data' →
  ys = ys' ∧ data = data'.
Proof.
  revert ys' data data'.
  induction ys as [|y ys IH]; intros [|y' ys'] [|c data] [|c' data'] Hlen Hlen' Heq;
    try done.
  simpl in Hlen, Hlen'.
  assert (Hrow : dataRow y c = dataRow y' c') by (simpl in Heq; congruence).
  assert (Hrest : zip_with dataRow ys data = zip_with dataRow ys' data')
    by (simpl in Heq; congruence).
  apply dataRow_inj in Hrow as [-> ->].
  destruct (IH ys' data data') as [-> ->]; [lia..|done|done].
Qed.

(** X11.  The table keeps everything of a matrix but its name: two matrices
    with a row of cells for each Y label that are exported to the same table
    have the same axes and the same cells. *)
Theorem export_is_lossless (m m' : Matrix.t) :
  length (Matrix.data m) = length (Matrix.yAxis m) →
  length (Matrix.data m') = length (Matrix.yAxis m') →
  exportRows m = exportRows m' →
  contentOf m = contentOf m'.
Proof.
  intros Hlen Hlen'. rewrite !exportRows_eq, !decide_True by lia.
  unfold headerRow. intros [= Hx Hrows].
  apply zip_with_dataRow_inj in Hrows as [Hy Hdata]; [|done..].
  unfold contentOf. rewrite Hy, Hdata. do 2 f_equal.
  revert Hx. generalize (Matrix.xAxis m) (Matrix.xAxis m').
  induction l as [|x l IH]; intros [|x' l'] Hx; simplify_eq/=; [done|].
  f_equal. by apply IH.
Qed.

Lemma export_is_lossless_witness :
  length (Matrix.data scenarioA_matrix) = length (Matrix.yAxis scenarioA_matrix) ∧
  exportRows scenarioA_matrix
  = exportRows {| Matrix.name := "renamed";
                  Matrix.yAxis := Matrix.yAxis scenarioA_matrix;
                  Matrix.xAxis := Matrix.xAxis scenarioA_matrix;
                  Matrix.data := Matrix.data scenarioA_matrix |} ∧
  contentOf scenarioA_matrix
  = contentOf {| Matrix.name := "renamed";
                 Matrix.yAxis := Matrix.yAxis scenarioA_matrix;
                 Matrix.xAxis := Matrix.xAxis scenarioA_matrix;
                 Matrix.data := Matrix.data scenarioA_matrix |}.
Proof.
  split; [reflexivity|]. split; [reflexivity|].
  apply export_is_lossless; reflexivity.
Defined.

(** ** Sheet names *)





(** * Only the selected columns are read *)

Lemma list_bind_ext_Forall {A B : Type} (f g : A → list B) (l : list A) :
  Forall (λ a, f a = g a) l → l ≫= f = l ≫= g.
Proof.
  induction 1 as [|a l Ha _ IH]; [done|]. by rewrite !bind_cons, Ha, IH.
Qed.

Section agree.
Context (fileData fileData' : list File.t) (columnSelections : gmap string Selection.t).

Lemma sheets_agree_resolves (source : Source.t) :
  sheets_agree columnSelections fileData fileData' source →
  resolves fileData source ↔ resolves fileData' source.
Proof.
  unfold sheets_agree, findSheet, resolves.
  destruct (fileData !! Source.fileIndex source) as [file|],
    (fileData' !! Source.fileIndex source) as [file'|]; intros H.
  - split; intros _; by eexists.
  - by destruct (find _ _).
  - done.
  - done.
Qed.

Lemma sheets_agree_rows (source : Source.t) :
  sheets_agree columnSelections fileData fileData' source →
  Forall2 (rows_agree columnSelections source)
    (sourceRows fileData source) (sourceRows fileData' source).
Proof.
  unfold sheets_agree, sourceRows.
  by destruct (findSheet fileData source) as [[s|]|],
    (findSheet fileData' source) as [[s'|]|].
Qed.

Lemma sheets_agree_found (source : Source.t) :
  sheets_agree columnSelections fileData fileData' source →
  match findSheet fileData source, findSheet fileData' source with
  | Ok (Some _), Ok (Some _) | Ok None, Ok None | TypeError, TypeError => True
  | _, _ => False
  end.
Proof.
  unfold sheets_agree.
  by destruct (findSheet fileData source) as [[s|]|],
    (findSheet fileData' source) as [[s'|]|].
Qed.

Lemma columnValues_agree (source : Source.t) (rows rows' : list row) :
  Forall2 (rows_agree columnSelections source) rows rows' →
  columnValues (yColOf columnSelections source) rows
  = columnValues (yColOf columnSelections source) rows' ∧
  columnValues (xColOf columnSelections source) rows
  = columnValues (xColOf columnSelections source) rows' ∧
  secondaryValues (secondaryXColOf columnSelections source) rows
  = secondaryValues (secondaryXColOf columnSelections source) rows'.
Proof.
  unfold columnValues, secondaryValues.
  induction 1 as [|r r' rows rows' (Hy & Hx & Hs) _ (IHy & IHx & IHs)]; [done|].
  rewrite !fmap_cons. by rewrite Hy, Hx, Hs, IHy, IHx, IHs.
Qed.

Lemma rowHits_agree (source : Source.t) (rows rows' : list row) :
  Forall2 (rows_agree columnSelections source) rows rows' →
  rowHits (yColOf columnSelections source) (xColOf columnSelections source) rows
  = rowHits (yColOf columnSelections source) (xColOf columnSelections source) rows'.
Proof.
  unfold rowHits.
  induction 1 as [|r r' rows rows' (Hy & Hx & Hs) _ IH]; [done|].
  rewrite !fmap_cons. by rewrite Hy, Hx, IH.
Qed.

Lemma rowHitsSecondary_agree (source : Source.t) (secX : string)
    (rows rows' : list row) :
  Forall2 (rows_agree columnSelections source) rows rows' →
  rowHitsSecondary (yColOf columnSelections source) (xColOf columnSelections source)
    (secondaryXColOf columnSelections source) secX rows
  = rowHitsSecondary (yColOf columnSelections source)
      (xColOf columnSelections source)
      (secondaryXColOf columnSelections source) secX rows'.
Proof.
  unfold rowHitsSecondary, rowHits.
  induction 1 as [|r r' rows rows' (Hy & Hx & Hs) _ IH]; [done|].
  rewrite !filter_cons, <-Hs. case_decide; [|done].
  rewrite !fmap_cons. by rewrite Hy, Hx, IH.
Qed.

Section sources.
Context (sources : list Source.t).
Context (Hagree : Forall (sheets_agree columnSelections fileData fileData') sources).

Lemma axisY_agree :
  axisY fileData columnSelections sources = axisY fileData' columnSelections sources.
Proof.
  unfold axisY. do 2 f_equal. apply list_bind_ext_Forall.
  eapply Forall_impl; [done|]. intros source Hsource. cbn beta.
  by destruct (columnValues_agree source _ _ (sheets_agree_rows source Hsource))
    as (? & ? & ?).
Qed.

Lemma axisX_agree :
  axisX fileData columnSelections sources = axisX fileData' columnSelections sources.
Proof.
  unfold axisX. do 2 f_equal. apply list_bind_ext_Forall.
  eapply Forall_impl; [done|]. intros source Hsource. cbn beta.
  by destruct (columnValues_agree source _ _ (sheets_agree_rows source Hsource))
    as (? & ? & ?).
Qed.

Lemma axisSecondary_agree :
  axisSecondary fileData columnSelections sources
  = axisSecondary fileData' columnSelections sources.
Proof.
  unfold axisSecondary. do 2 f_equal. apply list_bind_ext_Forall.
  eapply Forall_impl; [done|]. intros source Hsource. cbn beta.
  by destruct (columnValues_agree source _ _ (sheets_agree_rows source Hsource))
    as (? & ? & ?).
Qed.

Lemma hits_agree :
  hits fileData columnSelections sources = hits fileData' columnSelections sources.
Proof.
  unfold hits. apply list_bind_ext_Forall.
  eapply Forall_impl; [done|]. intros source Hsource. cbn beta.
  by apply rowHits_agree, sheets_agree_rows.
Qed.

Lemma hitsSecondary_agree (secX : string) :
  hitsSecondary fileData columnSelections secX sources
  = hitsSecondary fileData' columnSelections secX sources.
Proof.
  unfold hitsSecondary. apply list_bind_ext_Forall.
  eapply Forall_impl; [done|]. intros source Hsource. cbn beta.
  by apply rowHitsSecondary_agree, sheets_agree_rows.
Qed.

Lemma matrixOf_agree (name : string) (marked : list (string * string)) :
  matrixOf fileData columnSelections name sources marked
  = matrixOf fileData' columnSelections name sources marked.
Proof. unfold matrixOf, gridOf. by rewrite axisY_agree, axisX_agree. Qed.

End sources.

Lemma configOutput_agree (config : Config.t) :
  Forall (sheets_agree columnSelections fileData fileData') (Config.sources config) →
  configOutput fileData columnSelections config
  = configOutput fileData' columnSelections config.
Proof.
  intros Hagree. unfold configOutput, mergedOutput, independentOutput.
  destruct (Config.merge config).
  - rewrite <-axisSecondary_agree by done. destruct (_ && _).
    + apply list_fmap_ext. intros i secX Hi.
      by rewrite hitsSecondary_agree, matrixOf_agree.
    + by rewrite hits_agree, matrixOf_agree.
  - apply list_bind_ext_Forall. eapply Forall_impl; [done|].
    intros source Hsource. cbn beta.
    pose proof (sheets_agree_found source Hsource) as Hfound.
    destruct (findSheet fileData source) as [[s|]|],
      (findSheet fileData' source) as [[s'|]|]; try done.
    assert (Hone : Forall (sheets_agree columnSelections fileData fileData') [source])
      by (by constructor).
    unfold sourceOutput. rewrite <-axisSecondary_agree by done. destruct (_ && _).
    + apply list_fmap_ext. intros i secX Hi.
      by rewrite hitsSecondary_agree, matrixOf_agree.
    + by rewrite hits_agree, matrixOf_agree.
Qed.

End agree.

(** X13.  Of the files, [computeMatrices] reads the sheets found for the
    sources and, of their rows, the trimmed values of the columns selected
    for the source: when for every source the sheet is found in two lists of
    files alike and its rows agree one by one on these values, the results
    are equal.  The name of a file, the headers of a sheet, the columns that
    are not selected and the raw form of a cell make no difference. *)
Theorem only_selected_columns_are_read (fileData fileData' : list File.t)
    (selectedTabs : gmap string (list string))
    (columnSelections : gmap string Selection.t) (matrixConfig : list Config.t) :
  (∀ config source, config ∈ matrixConfig → source ∈ Config.sources config →
     sheets_agree columnSelections fileData fileData' source) →
  computeMatrices fileData selectedTabs columnSelections matrixConfig
  = computeMatrices fileData' selectedTabs columnSelections matrixConfig.
Proof.
  intros Hagree.
  assert (Hall : Forall (λ config,
    Forall (sheets_agree columnSelections fileData fileData')
      (Config.sources config)) matrixConfig).
  { apply Forall_forall. intros config Hconfig.
    apply Forall_forall. intros source Hsource. by eapply Hagree. }
  assert (Hres : all_resolve fileData matrixConfig ↔ all_resolve fileData' matrixConfig).
  { unfold all_resolve. rewrite !Forall_forall. split; intros H config Hconfig;
      specialize (H config Hconfig); rewrite Forall_forall in H;
      apply Forall_forall; intros source Hsource.
    - apply (sheets_agree_resolves _ _ _ _ (Hagree config source Hconfig Hsource)).
      by apply H.
    - apply (sheets_agree_resolves _ _ _ _ (Hagree config source Hconfig Hsource)).
      by apply H. }
  destruct (decide (all_resolve fileData matrixConfig)) as [Hok|Hok].
  - rewrite (computeMatrices_resolved fileData) by done.
    rewrite (computeMatrices_resolved fileData') by (by apply Hres).
    f_equal. apply list_bind_ext_Forall. eapply Forall_impl; [exact Hall|].
    intros config Hconfig. by apply configOutput_agree.
  - rewrite !computeMatrices_unresolved; [done| |done]. by rewrite <-Hres.
Qed.

Lemma only_selected_columns_are_read_witness :
  (∀ config source, config ∈ [scenarioA_config] → source ∈ Config.sources config →
     sheets_agree scenarioA_selections scenarioA_files scenarioA_files_raw source) ∧
  computeMatrices scenarioA_files_raw ∅ scenarioA_selections [scenarioA_config]
  = Ok [scenarioA_matrix].
Proof.
  assert (Hagree : ∀ config source,
    config ∈ [scenarioA_config] → source ∈ Config.sources config →
    sheets_agree scenarioA_selections scenarioA_files scenarioA_files_raw source).
  { intros config source ->%list_elem_of_singleton ->%list_elem_of_singleton.
    unfold sheets_agree. cbn.
    repeat (constructor; [repeat split; vm_compute; reflexivity|]).
    constructor. }
  split; [exact Hagree|].
  rewrite <-(only_selected_columns_are_read scenarioA_files scenarioA_files_raw ∅
               scenarioA_selections [scenarioA_config] Hagree).
  vm_compute. reflexivity.
Defined.

(** * Names that are not read *)

Lemma bind_ext_Forall2 {A B : Type} (R : A → A → Prop) (f g : A → list B)
    (l l' : list A) :
  (∀ a a', R a a' → f a = g a') → Forall2 R l l' → l ≫= f = l' ≫= g.
Proof.
  intros Hfg. induction 1 as [|a a' l l' Ha _ IH]; [done|].
  by rewrite !bind_cons, (Hfg _ _ Ha), IH.
Qed.

Section same_place.
Context (fileData : list File.t) (columnSelections : gmap string Selection.t).

Lemma key_of_same_place (source source' : Source.t) :
  source_same_place source source' → key_of source = key_of source'.
Proof. intros [Hfile Hsheet]. unfold key_of. by rewrite Hfile, Hsheet. Qed.

Lemma findSheet_same_place (source source' : Source.t) :
  source_same_place source source' →
  findSheet fileData source = findSheet fileData source'.
Proof. intros [Hfile Hsheet]. unfold findSheet. by rewrite Hfile, Hsheet. Qed.

Lemma sourceRows_same_place (source source' : Source.t) :
  source_same_place source source' →
  sourceRows fileData source = sourceRows fileData source'.
Proof.
  intros Hplace. unfold sourceRows. by rewrite (findSheet_same_place _ _ Hplace).
Qed.

Lemma selected_same_place (source source' : Source.t)
    (field : Selection.t → option string) :
  source_same_place source source' →
  selected columnSelections source field = selected columnSelections source' field.
Proof.
  intros Hplace. unfold selected. by rewrite (key_of_same_place _ _ Hplace).
Qed.

Section sources.
Context (sources sources' : list Source.t).
Context (Hplaces : Forall2 source_same_place sources sources').

Lemma axisY_same_place :
  axisY fileData columnSelections sources = axisY fileData columnSelections sources'.
Proof.
  unfold axisY, yColOf. do 2 f_equal.
  apply (bind_ext_Forall2 source_same_place); [|done]. intros source source' Hplace.
  by rewrite (selected_same_place _ _ _ Hplace), (sourceRows_same_place _ _ Hplace).
Qed.

Lemma axisX_same_place :
  axisX fileData columnSelections sources = axisX fileData columnSelections sources'.
Proof.
  unfold axisX, xColOf. do 2 f_equal.
  apply (bind_ext_Forall2 source_same_place); [|done]. intros source source' Hplace.
  by rewrite (selected_same_place _ _ _ Hplace), (sourceRows_same_place _ _ Hplace).
Qed.

Lemma axisSecondary_same_place :
  axisSecondary fileData columnSelections sources
  = axisSecondary fileData columnSelections sources'.
Proof.
  unfold axisSecondary, secondaryXColOf. do 2 f_equal.
  apply (bind_ext_Forall2 source_same_place); [|done]. intros source source' Hplace.
  by rewrite (selected_same_place _ _ _ Hplace), (sourceRows_same_place _ _ Hplace).
Qed.

Lemma hits_same_place :
  hits fileData columnSelections sources = hits fileData columnSelections sources'.
Proof.
  unfold hits, yColOf, xColOf.
  apply (bind_ext_Forall2 source_same_place); [|done]. intros source source' Hplace.
  by rewrite !(selected_same_place _ _ _ Hplace), (sourceRows_same_place _ _ Hplace).
Qed.

Lemma hitsSecondary_same_place (secX : string) :
  hitsSecondary fileData columnSelections secX sources
  = hitsSecondary fileData columnSelections secX sources'.
Proof.
  unfold hitsSecondary, yColOf, xColOf, secondaryXColOf.
  apply (bind_ext_Forall2 source_same_place); [|done]. intros source source' Hplace.
  by rewrite !(selected_same_place _ _ _ Hplace), (sourceRows_same_place _ _ Hplace).
Qed.

Lemma matrixOf_same_place (name : string) (marked : list (string * string)) :
  matrixOf fileData columnSelections name sources marked
  = matrixOf fileData columnSelections name sources' marked.
Proof. unfold matrixOf, gridOf. by rewrite axisY_same_place, axisX_same_place. Qed.

End sources.

Lemma resolves_same_place (sources sources' : list Source.t) :
  Forall2 source_same_place sources sources' →
  Forall (resolves fileData) sources ↔ Forall (resolves fileData) sources'.
Proof.
  induction 1 as [|source source' l l' [Hfile _] _ IH]; [done|].
  rewrite !Forall_cons, IH. unfold resolves. by rewrite Hfile.
Qed.

Lemma configOutput_same_use (config config' : Config.t) :
  config_same_use config config' →
  configOutput fileData columnSelections config
  = configOutput fileData columnSelections config'.
Proof.
  intros [Hmerge Huse]. unfold configOutput. rewrite <-Hmerge.
  destruct (Config.merge config).
  - destruct Huse as [Hname Hplaces]. unfold mergedOutput.
    rewrite !mergedOutput_condition, <-Hname.
    rewrite <-(axisSecondary_same_place _ _ Hplaces). case_bool_decide.
    + apply list_fmap_ext. intros i secX Hi.
      by rewrite (hitsSecondary_same_place _ _ Hplaces),
        (matrixOf_same_place _ _ Hplaces).
    + by rewrite (hits_same_place _ _ Hplaces), (matrixOf_same_place _ _ Hplaces).
  - unfold independentOutput. by rewrite Huse.
Qed.

Lemma all_resolve_same_use (matrixConfig matrixConfig' : list Config.t) :
  Forall2 config_same_use matrixConfig matrixConfig' →
  all_resolve fileData matrixConfig ↔ all_resolve fileData matrixConfig'.
Proof.
  unfold all_resolve.
  induction 1 as [|config config' l l' [Hmerge Huse] _ IH]; [done|].
  rewrite !Forall_cons, IH. destruct (Config.merge config).
  - destruct Huse as [_ Hplaces]. by rewrite (resolves_same_place _ _ Hplaces).
  - by rewrite Huse.
Qed.

End same_place.

(** X14.  The names the result does not depend on.  A merged configuration
    never reads the file names of its sources, an independent configuration
    never reads its own name: configurations of the same modes, the merged
    ones with the same names over the same sheets of the same files, the
    independent ones with the same sources, give the same result.  Renaming
    a configuration has an effect only while it is merged. *)
Theorem unread_names (fileData : list File.t)
    (selectedTabs : gmap string (list string))
    (columnSelections : gmap string Selection.t)
    (matrixConfig matrixConfig' : list Config.t) :
  Forall2 config_same_use matrixConfig matrixConfig' →
  computeMatrices fileData selectedTabs columnSelections matrixConfig
  = computeMatrices fileData selectedTabs columnSelections matrixConfig'.
Proof.
  intros Huse.
  destruct (decide (all_resolve fileData matrixConfig)) as [Hok|Hok].
  - rewrite (computeMatrices_resolved _ _ _ matrixConfig) by done.
    rewrite (computeMatrices_resolved _ _ _ matrixConfig')
      by (by apply (all_resolve_same_use _ _ _ Huse)).
    f_equal. apply (bind_ext_Forall2 config_same_use); [|done].
    apply configOutput_same_use.
  - rewrite (computeMatrices_unresolved _ _ _ matrixConfig) by done.
    rewrite (computeMatrices_unresolved _ _ _ matrixConfig'); [done|].
    by rewrite <-(all_resolve_same_use _ _ _ Huse).
Qed.

Lemma unread_names_witness :
  Forall2 config_same_use [scenarioA_config; scenarioB_config]
    [scenarioA_config_renamed; scenarioB_config_unnamed] ∧
  computeMatrices scenarioB_files ∅ scenarioB_selections
    [scenarioA_config; scenarioB_config]
  = computeMatrices scenarioB_files ∅ scenarioB_selections
      [scenarioA_config_renamed; scenarioB_config_unnamed].
Proof.
  assert (Huse : Forall2 config_same_use [scenarioA_config; scenarioB_config]
                   [scenarioA_config_renamed; scenarioB_config_unnamed]).
  { constructor; [|constructor; [|constructor]].
    - split; reflexivity.
    - split; [reflexivity|]. split; [reflexivity|].
      cbn. repeat (constructor; [split; reflexivity|]). constructor. }
  split; [exact Huse|].
  exact (unread_names scenarioB_files ∅ scenarioB_selections _ _ Huse).
Defined.

(** * Properties of the rows built by [processFiles] *)

Lemma js_or_idemp (v : value) :
  js_or (js_or v (VStr EmptyString)) (VStr EmptyString) = js_or v (VStr EmptyString).
Proof. unfold js_or. by destruct (truthy v) eqn:Hv; [rewrite Hv|]. Qed.

Lemma assignCells_other (cells : list value) (idx : nat) (obj : row)
    (headers : list value) (key : string) :
  key ∉ js_String <$> headers →
  assignCells cells idx obj headers !! key = obj !! key.
Proof.
  revert idx obj. induction headers as [|header headers IH]; intros idx obj Hkey;
    [done|].
  rewrite fmap_cons, not_elem_of_cons in Hkey. destruct Hkey as [Hne Hkey].
  simpl. rewrite IH by done. unfold assignCell. case_bool_decide; [done|].
  by rewrite lookup_insert_ne.
Qed.

Lemma assignCells_last (cells : list value) (idx0 : nat) (obj : row)
    (headers : list value) (idx : nat) (header : value) :
  headers !! idx = Some header →
  js_String header ≠ "__proto__" →
  last_header headers idx (js_String header) →
  assignCells cells idx0 obj headers !! js_String header
  = Some (js_or (array_get cells (idx0 + idx)) (VStr EmptyString)).
Proof.
  revert idx0 obj idx.
  induction headers as [|header' headers IH]; intros idx0 obj idx Hidx Hproto Hlast;
    [done|].
  destruct idx as [|idx]; simpl in *.
  - injection Hidx as ->. rewrite assignCells_other.
    + unfold assignCell. rewrite bool_decide_false by done.
      by rewrite lookup_insert_eq, Nat.add_0_r.
    + intros (header' & Hkey & [i Hi]%list_elem_of_lookup)%list_elem_of_fmap.
      by apply (Hlast (S i) header'); [lia| |].
  - rewrite (IH (S idx0) _ idx); [by rewrite Nat.add_succ_r|done..|].
    intros idx' header'' Hlt Hheader. apply (Hlast (S idx') header''); [lia|done].
Qed.

(** X15.  What a row object holds for a column.  For the last header with a
    given property key (a header that is repeated is overwritten by the
    repetition), the row holds the cell at the index of the header, and the
    empty text when the cell is missing from the row or falsy: a cell that is
    the number 0 or [false] is stored as the empty text.  The matrix engine
    then reads of the column exactly the trimmed text of that cell. *)
Theorem built_row_column (headers cells : list value) (idx : nat) (header : value) :
  headers !! idx = Some header →
  js_String header ≠ "__proto__" →
  last_header headers idx (js_String header) →
  buildRow headers cells !! js_String header
  = Some (js_or (array_get cells idx) (VStr EmptyString)) ∧
  cellValue (buildRow headers cells) (Some (js_String header))
  = trim (js_String (js_or (array_get cells idx) (VStr EmptyString))).
Proof.
  intros Hidx Hproto Hlast.
  pose proof (assignCells_last cells 0 ∅ headers idx header Hidx Hproto Hlast) as Hrow.
  split; [done|]. unfold cellValue, row_get, property_key, buildRow.
  rewrite Hrow. simpl. by rewrite js_or_idemp.
Qed.

Lemma built_row_column_witness :
  buildRow [VStr "Emp"; VStr "Level"; VStr "Emp"] [VStr "Alice"; VNum 0; VStr " Bob "]
  = {[ "Emp" := VStr " Bob "; "Level" := VStr EmptyString ]} ∧
  cellValue
    (buildRow [VStr "Emp"; VStr "Level"; VStr "Emp"]
       [VStr "Alice"; VNum 0; VStr " Bob "])
    (Some (js_String (VStr "Emp")))
  = "Bob".
Proof.
  split; [vm_compute; reflexivity|].
  rewrite (proj2 (built_row_column [VStr "Emp"; VStr "Level"; VStr "Emp"]
                    [VStr "Alice"; VNum 0; VStr " Bob "] 2 (VStr "Emp")
                    eq_refl ltac:(discriminate)
                    ltac:(intros [|[|[|idx']]] header' Hlt Hheader;
                          [lia..|discriminate])));
    vm_compute; reflexivity.
Defined.

Lemma dom_assignCells (cells : list value) (idx : nat) (obj : row)
    (headers : list value) :
  dom (assignCells cells idx obj headers)
  = dom obj ∪ list_to_set (filter (λ key, key ≠ "__proto__") (js_String <$> headers)).
Proof.
  revert idx obj. induction headers as [|header headers IH]; intros idx obj; simpl.
  - set_solver.
  - rewrite IH, filter_cons. unfold assignCell. case_bool_decide as Hproto.
    + by rewrite decide_False by (by intros ?).
    + rewrite decide_True by done. rewrite dom_insert_L. set_solver.
Qed.

Lemma assignCells_values (cells : list value) (idx : nat) (obj : row)
    (headers : list value) :
  map_Forall (λ _ v, truthy v = true ∨ v = VStr EmptyString) obj →
  map_Forall (λ _ v, truthy v = true ∨ v = VStr EmptyString)
    (assignCells cells idx obj headers).
Proof.
  revert idx obj. induction headers as [|header headers IH]; intros idx obj Hobj;
    [done|].
  simpl. apply IH. unfold assignCell. case_bool_decide; [done|].
  apply map_Forall_insert_2; [|done].
  unfold js_or. destruct (truthy (array_get cells idx)) eqn:Hcell; auto.
Qed.

(** X16.  The rows of a sheet.  A sheet without any row of cells, not even
    headers, is not kept.  Otherwise there is one row object for each row of
    cells after the headers; the properties of a row object are the property
    keys of the headers, whatever the number of cells of the row, and each
    holds a truthy cell or the empty text, never [undefined], [null],
    [false] or the number 0. *)
Theorem sheet_rows_shape (jsonData : list (list value)) :
  match sheetRows jsonData with
  | None => jsonData = []
  | Some rows =>
      ∃ headers, head jsonData = Some headers ∧
        length rows = length (tail jsonData) ∧
        Forall (λ r,
            dom r = list_to_set
                      (filter (λ key, key ≠ "__proto__") (js_String <$> headers)) ∧
            map_Forall (λ _ v, truthy v = true ∨ v = VStr EmptyString) r) rows
  end.
Proof.
  destruct jsonData as [|headers rows]; [done|]. simpl.
  exists headers. split; [done|]. split; [by rewrite length_fmap|].
  apply Forall_fmap, Forall_forall. intros cells _. unfold compose. cbn beta. split.
  - unfold buildRow. rewrite dom_assignCells. set_solver.
  - apply assignCells_values, map_Forall_empty.
Qed.

(** * Properties of [TabSelector] *)

Lemma has_char_app (c : ascii) (s t : string) :
  has_char c (s +:+ t) = has_char c s || has_char c t.
Proof.
  induction s as [|c' s IH]; [done|].
  rewrite string_app_cons. simpl. by rewrite IH, orb_assoc.
Qed.

Lemma pretty_N_go_no_dash (x : N) (s : string) :
  has_char "-" s = false → has_char "-" (pretty_N_go x s) = false.
Proof.
  revert s. induction (N.lt_wf_0 x) as [x _ IH]; intros s Hs.
  assert (x = 0 ∨ 0 < x)%N as [->|Hx] by lia.
  - by rewrite pretty_N_go_0.
  - rewrite pretty_N_go_step by done. apply IH.
    + by apply N.div_lt.
    + simpl. rewrite Hs, orb_false_r. unfold pretty_N_char.
      by repeat case_match.
Qed.

Lemma pretty_nat_no_dash (n : nat) : has_char "-" (pretty n) = false.
Proof.
  unfold pretty, pretty_nat, pretty, pretty_N. case_decide; [done|].
  by apply pretty_N_go_no_dash.
Qed.

Lemma split_cons (sep : ascii) (s : string) :
  ∃ piece pieces, split sep s = piece :: pieces.
Proof.
  induction s as [|c s (piece & pieces & IH)]; simpl; [by eexists _, _|].
  destruct (Ascii.eqb c sep); [by eexists _, _|]. rewrite IH. by eexists _, _.
Qed.

Lemma split_app (sep : ascii) (s t : string) :
  has_char sep s = false →
  split sep (s +:+ String sep t) = s :: split sep t.
Proof.
  induction s as [|c s IH]; intros Hs; simpl in *.
  - by rewrite Ascii.eqb_refl.
  - apply orb_false_iff in Hs as [Hc Hs]. by rewrite Hc, (IH Hs).
Qed.

Lemma concat_cons (sep piece piece' : string) (pieces : list string) :
  String.concat sep (piece :: piece' :: pieces)
  = piece +:+ sep +:+ String.concat sep (piece' :: pieces).
Proof. reflexivity. Qed.

Lemma concat_split (sep : ascii) (s : string) :
  String.concat (String sep EmptyString) (split sep s) = s.
Proof.
  induction s as [|c s IH]; [done|].
  destruct (split_cons sep s) as (piece & pieces & Hsplit).
  cbn [split]. rewrite Hsplit in *.
  destruct (Ascii.eqb_spec c sep) as [->|Hc].
  - by rewrite concat_cons, IH.
  - destruct pieces as [|piece' pieces].
    + cbn in *. by rewrite IH.
    + rewrite concat_cons in *. by rewrite <-IH.
Qed.

(** X17.  The key of a tab is read back as it was written: splitting the key
    at its dashes gives the file index first, and joining the rest with
    dashes gives the sheet name again, also for a sheet name that holds
    dashes itself.  Different tabs have different keys. *)
Theorem tab_key_decodes (fileIndex : nat) (sheetName : string) :
  (∃ rest, split "-" (tab_key fileIndex sheetName) = pretty fileIndex :: rest ∧
           String.concat "-" rest = sheetName) ∧
  (∀ fileIndex' sheetName',
     tab_key fileIndex sheetName = tab_key fileIndex' sheetName' ↔
     fileIndex = fileIndex' ∧ sheetName = sheetName').
Proof.
  assert (Hsplit : ∀ i name,
    split "-" (tab_key i name) = pretty i :: split "-" name).
  { intros i name. unfold tab_key. apply split_app, pretty_nat_no_dash. }
  split.
  - exists (split "-" sheetName). split; [apply Hsplit|apply concat_split].
  - intros fileIndex' sheetName'. split; [|by intros [-> ->]].
    intros Hkey. pose proof (f_equal (split "-") Hkey) as Hpieces.
    rewrite !Hsplit in Hpieces. injection Hpieces as Hindex Hrest.
    split; [by apply (inj pretty)|].
    by rewrite <-(concat_split "-" sheetName), Hrest, concat_split.
Qed.

Lemma tab_key_split (fileIndex : nat) (sheetName : string) :
  split "-" (tab_key fileIndex sheetName) = pretty fileIndex :: split "-" sheetName.
Proof. unfold tab_key. apply split_app, pretty_nat_no_dash. Qed.

Lemma tab_key_inj (i i' : nat) (name name' : string) :
  tab_key i name = tab_key i' name' → i = i' ∧ name = name'.
Proof.
  intros Hkey. pose proof (f_equal (split "-") Hkey) as Hpieces.
  rewrite !tab_key_split in Hpieces. injection Hpieces as Hindex Hrest.
  split; [by apply (inj pretty)|].
  by rewrite <-(concat_split "-" name), Hrest, concat_split.
Qed.

Section objects.
Context {V : Type}.
Implicit Types (o : list (string * V)) (key k : string) (v w : V).

Lemma obj_get_set o key k w :
  obj_get (obj_set o key w) k = if decide (k = key) then Some w else obj_get o k.
Proof.
  unfold obj_get. induction o as [|[k' v'] o IH]; simpl.
  - case_bool_decide; case_decide; by simplify_eq.
  - case_bool_decide as Hk'; simpl.
    + subst k'. case_bool_decide; case_decide; by simplify_eq.
    + case_bool_decide as Hk; simpl; [|done].
      subst k'. by rewrite decide_False by done.
Qed.

Lemma obj_set_keys o key w :
  (obj_set o key w).*1 = if decide (key ∈ o.*1) then o.*1 else o.*1 ++ [key].
Proof.
  induction o as [|[k' v'] o IH]; [done|].
  cbn [obj_set]. case_bool_decide as Hk'; rewrite !fmap_cons; cbn [fst].
  - subst k'. by rewrite decide_True by (by left).
  - rewrite IH. destruct (decide (key ∈ o.*1)) as [Hin|Hin].
    + by rewrite decide_True by (by right).
    + rewrite decide_False; [done|]. by intros [?|?]%elem_of_cons.
Qed.

Lemma obj_set_NoDup o key w : NoDup o.*1 → NoDup (obj_set o key w).*1.
Proof.
  intros Ho. rewrite obj_set_keys. case_decide as Hin; [done|].
  apply NoDup_app. split_and!; [done| |apply NoDup_singleton].
  by intros k Hk ->%list_elem_of_singleton.
Qed.

Lemma obj_get_elem_of o k v : NoDup o.*1 → obj_get o k = Some v ↔ (k, v) ∈ o.
Proof.
  unfold obj_get. induction o as [|[k' v'] o IH]; intros Ho; simpl.
  - split; [done|by intros ?%elem_of_nil].
  - apply NoDup_cons in Ho as [Hk' Ho]. case_bool_decide as Hk; simpl.
    + subst k'. split.
      * intros [= ->]. by left.
      * intros [[= ->]|Hin]%elem_of_cons; [done|].
        destruct Hk'. apply list_elem_of_fmap. by exists (k, v).
    + rewrite (IH Ho). split; [by right|].
      by intros [[= -> ->]|Hin]%elem_of_cons.
Qed.

End objects.

Lemma odd_clicks_snoc (clicks : list (nat * string)) (tab tab' : nat * string) :
  odd_clicks (clicks ++ [tab]) tab'
  = if decide (tab = tab') then negb (odd_clicks clicks tab') else odd_clicks clicks tab'.
Proof.
  unfold odd_clicks. rewrite filter_app, length_app, filter_cons, filter_nil.
  case_decide; simpl.
  - by rewrite Nat.add_1_r, Nat.odd_succ, <-Nat.negb_odd.
  - by rewrite Nat.add_0_r.
Qed.

Lemma odd_clicks_not_clicked (clicks : list (nat * string)) (tab : nat * string) :
  tab ∉ clicks → odd_clicks clicks tab = false.
Proof.
  intros Htab. unfold odd_clicks.
  assert (Hnone : filter (λ tab', tab' = tab) clicks = []).
  { induction clicks as [|tab' clicks IH]; [done|].
    apply not_elem_of_cons in Htab as [Hne Htab].
    rewrite filter_cons, decide_False by done. by apply IH. }
  by rewrite Hnone.
Qed.

(** The state after a sequence of clicks: a property for each tab that was
    clicked, which tells whether the number of its clicks is odd. *)
Lemma clicked_spec (clicks : list (nat * string)) :
  NoDup (TabSelector.clicked clicks).*1 ∧
  ∀ key on, (key, on) ∈ TabSelector.clicked clicks ↔
    ∃ tab, tab ∈ clicks ∧ key = tab_key tab.1 tab.2 ∧ on = odd_clicks clicks tab.
Proof.
  induction clicks as [|[i name] clicks (Hkeys & IH)] using rev_ind.
  - split; [constructor|]. intros key on. split.
    + by intros ?%elem_of_nil.
    + by intros (tab & ?%elem_of_nil & _).
  - unfold TabSelector.clicked in *. rewrite foldl_app. simpl.
    set (prev := foldl _ [] clicks) in *. unfold TabSelector.handleTabToggle.
    cbn [fst snd]. split; [by apply obj_set_NoDup|]. intros key on.
    rewrite <-obj_get_elem_of by (by apply obj_set_NoDup).
    assert (Hprev : default false (obj_get prev (tab_key i name))
                    = odd_clicks clicks (i, name)).
    { destruct (obj_get prev (tab_key i name)) as [on'|] eqn:Hget.
      - apply obj_get_elem_of, IH in Hget as ([i' name'] & _ & Hkey & ->); [|done].
        simpl in Hkey. by apply tab_key_inj in Hkey as [<- <-].
      - simpl. destruct (decide ((i, name) ∈ clicks)) as [Hin|Hin];
          [|by rewrite odd_clicks_not_clicked].
        assert (Hin' : (tab_key i name, odd_clicks clicks (i, name)) ∈ prev)
          by (apply IH; by exists (i, name)).
        apply obj_get_elem_of in Hin'; [|done]. congruence. }
    rewrite obj_get_set, Hprev. case_decide as Hkey.
    + subst key. split.
      * intros [= <-]. exists (i, name). split; [set_solver|]. split; [done|].
        by rewrite odd_clicks_snoc, decide_True by done.
      * intros ([i' name'] & _ & Hkey & ->). simpl in Hkey.
        apply tab_key_inj in Hkey as [<- <-].
        by rewrite odd_clicks_snoc, decide_True by done.
    + rewrite obj_get_elem_of, IH by done. split.
      * intros (tab & Hin & -> & ->). exists tab. split; [set_solver|].
        split; [done|]. rewrite odd_clicks_snoc, decide_False; [done|].
        by intros <-.
      * intros (tab & Hin & -> & ->).
        assert (Hne : tab ≠ (i, name)) by (by intros ->).
        exists tab. split; [set_solver|]. split; [done|].
        rewrite odd_clicks_snoc, decide_False; [done|]. by intros <-.
Qed.

(** The object filled by the loop of [handleContinue] over properties whose
    keys are keys of tabs. *)
Lemma foldl_selectTab (selectedTabs : list (string * bool))
    (selected : gmap string (list string)) (fileIndex sheetName : string) :
  Forall (λ entry, ∃ tab : nat * string, entry.1 = tab_key tab.1 tab.2) selectedTabs →
  sheetName ∈ default [] (foldl TabSelector.selectTab selected selectedTabs !! fileIndex) ↔
  sheetName ∈ default [] (selected !! fileIndex) ∨
  ∃ i, fileIndex = pretty i ∧ (tab_key i sheetName, true) ∈ selectedTabs.
Proof.
  intros Hkeys. revert selected.
  induction Hkeys as [|[key on] entries ([i name] & Hkey) _ IH]; intros selected.
  - simpl. split; [by left|]. by intros [?|(i & _ & ?%elem_of_nil)].
  - simpl in Hkey. subst key. cbn [foldl]. rewrite IH.
    unfold TabSelector.selectTab. cbn [fst snd]. destruct on.
    + rewrite tab_key_split, concat_split.
      destruct (decide (fileIndex = pretty i)) as [->|Hindex].
      * rewrite lookup_insert_eq. simpl. rewrite elem_of_app, list_elem_of_singleton.
        split.
        -- intros [[Hin | ->]|(i' & Hi' & Hin)]; [by left| |].
           ++ right. exists i. split; [done|]. by left.
           ++ right. exists i'. split; [done|]. by right.
        -- intros [?|(i' & Hi' & [Heq|Hin]%elem_of_cons)]; [by left; left| |].
           ++ injection Heq as Heq. apply tab_key_inj in Heq as [_ ->].
              by left; right.
           ++ right. by exists i'.
      * rewrite lookup_insert_ne by done. split.
        -- intros [?|(i' & Hi' & Hin)]; [by left|].
           right. exists i'. split; [done|]. by right.
        -- intros [?|(i' & Hi' & [Heq|Hin]%elem_of_cons)]; [by left| |].
           ++ injection Heq as Heq. apply tab_key_inj in Heq as [-> _]. by destruct Hindex.
           ++ right. by exists i'.
    + split.
      * intros [?|(i' & Hi' & Hin)]; [by left|].
        right. exists i'. split; [done|]. by right.
      * intros [?|(i' & Hi' & [Heq|Hin]%elem_of_cons)]; [by left|done|].
        right. by exists i'.
Qed.

Lemma foldl_selectTab_keys (selectedTabs : list (string * bool))
    (selected : gmap string (list string)) (fileIndex : string) :
  Forall (λ entry, ∃ tab : nat * string, entry.1 = tab_key tab.1 tab.2) selectedTabs →
  is_Some (foldl TabSelector.selectTab selected selectedTabs !! fileIndex) →
  is_Some (selected !! fileIndex) ∨ ∃ i : nat, fileIndex = pretty i.
Proof.
  intros Hkeys. revert selected.
  induction Hkeys as [|[key on] entries ([i name] & Hkey) _ IH]; intros selected;
    [by left|].
  simpl in Hkey. subst key. cbn [foldl]. intros [Hsome|Hi]%IH; [|by right].
  unfold TabSelector.selectTab in Hsome. cbn [fst snd] in Hsome.
  destruct on; [|by left]. rewrite tab_key_split in Hsome.
  destruct (decide (fileIndex = pretty i)) as [->|Hindex]; [right; by exists i|].
  rewrite lookup_insert_ne in Hsome by done. by left.
Qed.

(** X18.  What [handleContinue] hands on after any sequence of clicks on the
    tabs.  A tab is selected when it was clicked an odd number of times: the
    handler alerts and hands on nothing exactly when no tab is selected;
    otherwise the object it hands on has file indices for keys, and lists
    under the index of a file exactly the selected sheet names of the file,
    also the names that hold dashes. *)
Theorem tabs_selected_after_clicks (clicks : list (nat * string)) :
  match TabSelector.handleContinue (TabSelector.clicked clicks) with
  | None => ∀ tab, odd_clicks clicks tab = false
  | Some selected =>
      (∃ tab, odd_clicks clicks tab = true) ∧
      (∀ key, is_Some (selected !! key) → ∃ fileIndex : nat, key = pretty fileIndex) ∧
      ∀ fileIndex sheetName,
        sheetName ∈ default [] (selected !! pretty fileIndex) ↔
        odd_clicks clicks (fileIndex, sheetName) = true
  end.
Proof.
  destruct (clicked_spec clicks) as [Hnodup Hstate].
  assert (Hkeys : Forall (λ entry, ∃ tab : nat * string, entry.1 = tab_key tab.1 tab.2)
                    (TabSelector.clicked clicks)).
  { apply Forall_forall. intros [key on] (tab & _ & -> & _)%Hstate. by exists tab. }
  assert (Hsel : ∀ fileIndex sheetName,
    sheetName ∈ default [] (foldl TabSelector.selectTab ∅ (TabSelector.clicked clicks)
                              !! pretty fileIndex) ↔
    odd_clicks clicks (fileIndex, sheetName) = true).
  { intros i name. rewrite foldl_selectTab by done. rewrite lookup_empty. simpl. split.
    - intros [?%elem_of_nil|(i' & Hi & Hin)]; [done|].
      apply (inj pretty) in Hi as <-.
      apply Hstate in Hin as ([i' name'] & _ & Hkey & Hodd). simpl in Hkey.
      by apply tab_key_inj in Hkey as [<- <-].
    - intros Hodd. right. exists i. split; [done|]. apply Hstate. exists (i, name).
      split; [|done]. destruct (decide ((i, name) ∈ clicks)) as [|Hout]; [done|].
      by rewrite odd_clicks_not_clicked in Hodd. }
  assert (Hdom : ∀ key,
    is_Some (foldl TabSelector.selectTab ∅ (TabSelector.clicked clicks) !! key) →
    ∃ fileIndex : nat, key = pretty fileIndex).
  { intros key [Hsome|?]%foldl_selectTab_keys; [|done..].
    rewrite lookup_empty in Hsome. by destruct Hsome. }
  unfold TabSelector.handleContinue. cbn zeta. case_bool_decide as Hany.
  - split_and!; [|done..].
    destruct Hany as (key & tabs & Hlookup & Hlen).
    destruct (Hdom key) as [i ->]; [by eexists|].
    destruct tabs as [|name tabs]; [simpl in Hlen; lia|].
    exists (i, name). apply Hsel. rewrite Hlookup. by left.
  - intros [i name]. destruct (odd_clicks clicks (i, name)) eqn:Hodd; [|done].
    destruct Hany. apply Hsel in Hodd.
    destruct (foldl TabSelector.selectTab ∅ (TabSelector.clicked clicks) !! pretty i)
      as [tabs|] eqn:Hlookup; [|by apply elem_of_nil in Hodd].
    exists (pretty i), tabs. split; [done|].
    destruct tabs; [by apply elem_of_nil in Hodd|simpl; lia].
Qed.

(** * Properties of [ColumnSelector] *)

Lemma get_set (f f' : ColumnSelector.field) (value : option string)
    (selection : Selection.t) :
  ColumnSelector.get f (ColumnSelector.set f' value selection)
  = if decide (f = f') then value else ColumnSelector.get f selection.
Proof. by destruct f, f'. Qed.

Lemma get_handleSelection (key key' : string) (f f' : ColumnSelector.field)
    (value : option string) (prev : gmap string Selection.t) :
  ColumnSelector.handleSelection key' f' value prev !! key ≫= ColumnSelector.get f
  = if decide ((key, f) = (key', f')) then value
    else prev !! key ≫= ColumnSelector.get f.
Proof.
  unfold ColumnSelector.handleSelection.
  destruct (decide (key = key')) as [->|Hkey].
  - rewrite lookup_insert_eq. simpl. rewrite get_set.
    destruct (decide (f = f')) as [->|Hf].
    + by rewrite decide_True.
    + rewrite decide_False by congruence.
      destruct (prev !! key'); [done|by destruct f].
  - rewrite lookup_insert_ne by done. by rewrite decide_False by congruence.
Qed.

(** X19.  What the matrix engine reads of the selections after any sequence of
    choices.  For a source and a field, [columnSelections[key]?.field] is the
    value of the last choice made for the key of the source and that field,
    and nothing when no choice was made for them: a choice changes neither
    another field nor the selection of another tab. *)
Theorem selection_is_last_choice
    (choices : list (string * ColumnSelector.field * option string))
    (source : Source.t) (f : ColumnSelector.field) :
  selected (ColumnSelector.chosen choices) source (ColumnSelector.get f)
  = last_choice choices (key_of source) f.
Proof.
  unfold selected, last_choice, ColumnSelector.chosen.
  induction choices as [|[[key' f'] value] choices IH] using rev_ind; [done|].
  rewrite foldl_app, filter_app. cbn [foldl fst snd].
  rewrite get_handleSelection, IH, filter_cons, filter_nil. cbn [fst].
  destruct (decide ((key_of source, f) = (key', f'))) as [Heq|Hne].
  - rewrite decide_True by done. by rewrite last_snoc.
  - rewrite decide_False by done. by rewrite app_nil_r.
Qed.




(** * Properties of [MatrixConfigurator] *)

Lemma forEach_invariant {A St : Type} (P : St → Prop) (body : St → A → result St)
    (l : list A) (s r : St) :
  (∀ s a s', a ∈ l → P s → body s a = Ok s' → P s') →
  P s → forEach body s l = Ok r → P r.
Proof.
  revert s. induction l as [|a l IH]; intros s Hbody Hs Hrun; simpl in Hrun.
  - by injection Hrun as <-.
  - destruct (body s a) as [s'|] eqn:Hstep; [|done]. simpl in Hrun.
    apply (IH s'); [|by eapply Hbody; [left|..]|done].
    intros s1 a1 s1' Ha1. apply Hbody. by right.
Qed.

Section configurator.
Context (fileData : list File.t) (selectedTabs : list (nat * list string)).
Context (columnSelections : gmap string Selection.t).

Lemma forEachTab_invariant {St : Type} (P : St → Prop)
    (body : St → nat → string → result St) (s r : St) :
  (∀ s fileIndex sheetNames sheetName s',
     (fileIndex, sheetNames) ∈ selectedTabs → sheetName ∈ sheetNames →
     P s → body s fileIndex sheetName = Ok s' → P s') →
  P s → MatrixConfigurator.forEachTab selectedTabs body s = Ok r → P r.
Proof.
  intros Hbody. unfold MatrixConfigurator.forEachTab. apply forEach_invariant.
  intros s1 [fileIndex sheetNames] s1' Hentry Hs1. cbn [fst snd].
  apply forEach_invariant; [|done]. intros s2 sheetName s2' Hsheet.
  by apply (Hbody s2 fileIndex sheetNames).
Qed.

Lemma sourceOf_sound (fileIndex : nat) (sheetNames : list string) (sheetName : string)
    (source : Source.t) :
  (fileIndex, sheetNames) ∈ selectedTabs → sheetName ∈ sheetNames →
  is_Some (columnSelections !! tab_key fileIndex sheetName) →
  MatrixConfigurator.sourceOf fileData fileIndex sheetName = Ok source →
  source_sound fileData selectedTabs columnSelections source.
Proof.
  intros Hentry Hsheet Hselection. unfold MatrixConfigurator.sourceOf.
  destruct (fileData !! fileIndex) as [file|] eqn:Hfile; [|done].
  intros [= <-]. unfold source_sound. cbn [Source.fileIndex Source.sheetName
    Source.fileName]. split_and!; [by exists sheetNames|done|by exists file].
Qed.

Lemma sourceOf_place (fileIndex : nat) (sheetName : string) (source : Source.t) :
  MatrixConfigurator.sourceOf fileData fileIndex sheetName = Ok source →
  place source = (fileIndex, sheetName).
Proof.
  unfold MatrixConfigurator.sourceOf. destruct (fileData !! fileIndex); [|done].
  by intros [= <-].
Qed.

(** A property of the sources of each configuration that every event keeps:
    it holds of the sources built for the selected tabs that have a
    selection, and a configuration keeps it when a source is removed. *)
Section invariant.
Context (P : list Source.t → Prop).
Context (Hone : ∀ fileIndex sheetNames sheetName source,
  (fileIndex, sheetNames) ∈ selectedTabs → sheetName ∈ sheetNames →
  is_Some (columnSelections !! tab_key fileIndex sheetName) →
  MatrixConfigurator.sourceOf fileData fileIndex sheetName = Ok source →
  P [source]).
Context (Hadd : ∀ sources fileIndex sheetNames sheetName source,
  (fileIndex, sheetNames) ∈ selectedTabs → sheetName ∈ sheetNames →
  is_Some (columnSelections !! tab_key fileIndex sheetName) →
  MatrixConfigurator.sourceOf fileData fileIndex sheetName = Ok source →
  existsb (λ s, MatrixConfigurator.same_place s source) sources = false →
  P sources → P (sources ++ [source])).
Context (Hdelete : ∀ sources sourceIndex, P sources → P (delete sourceIndex sources)).

Lemma initialConfigs_invariant (initial : list MatrixConfigurator.config) :
  MatrixConfigurator.initialConfigs fileData selectedTabs columnSelections = Ok initial →
  Forall (λ c, P (MatrixConfigurator.sources c)) initial.
Proof.
  unfold MatrixConfigurator.initialConfigs. apply forEachTab_invariant; [|constructor].
  intros configs fileIndex sheetNames sheetName configs' Hentry Hsheet Hconfigs.
  destruct (columnSelections !! tab_key fileIndex sheetName) as [selection|] eqn:Hsel;
    [|by intros [= <-]].
  destruct (MatrixConfigurator.sourceOf fileData fileIndex sheetName)
    as [source|] eqn:Hsource; [|done].
  simpl. intros [= <-]. apply Forall_app. split; [done|].
  constructor; [|constructor]. simpl. by eapply Hone.
Qed.

Lemma handle_invariant (configs configs' : list MatrixConfigurator.config)
    (a : MatrixConfigurator.action) :
  Forall (λ c, P (MatrixConfigurator.sources c)) configs →
  MatrixConfigurator.handle fileData selectedTabs columnSelections configs a
  = Ok configs' →
  Forall (λ c, P (MatrixConfigurator.sources c)) configs'.
Proof.
  intros Hconfigs. destruct a as [index| |index|matrixIndex|matrixIndex sourceIndex|
    index newName]; simpl.
  - intros [= <-]. by apply Forall_alter.
  - unfold MatrixConfigurator.handleAddMatrix.
    destruct (MatrixConfigurator.forEachTab _ _ _) as [available|] eqn:Havailable;
      [|done].
    simpl. destruct available as [|firstSource available]; intros [= <-]; [done|].
    apply Forall_app. split; [done|]. constructor; [|constructor]. simpl.
    revert Havailable.
    apply (forEachTab_invariant (λ acc, match acc with [] => True | s :: _ => P [s] end));
      [|done].
    intros acc fileIndex sheetNames sheetName acc' Hentry Hsheet Hacc.
    destruct (columnSelections !! tab_key fileIndex sheetName) as [selection|] eqn:Hsel;
      [|by intros [= <-]].
    destruct (MatrixConfigurator.sourceOf fileData fileIndex sheetName)
      as [source|] eqn:Hsource; [|done].
    simpl. intros [= <-]. destruct acc; [|done]. simpl. by eapply Hone.
  - intros [= <-]. by apply Forall_delete.
  - unfold MatrixConfigurator.handleAddSource.
    destruct (MatrixConfigurator.forEachTab _ _ _) as [available|] eqn:Havailable;
      [|done].
    simpl. destruct available as [|newSource available]; [by intros [= <-]|].
    destruct (configs !! matrixIndex) as [current|] eqn:Hcurrent; [|by intros [= <-]].
    intros [= <-]. apply Forall_alter; [done|]. intros c Hc Hsources. simpl.
    assert (c = current) as -> by congruence.
    revert Havailable.
    apply (forEachTab_invariant (λ acc,
      match acc with
      | [] => True
      | s :: _ => P (MatrixConfigurator.sources current ++ [s])
      end)); [|done].
    intros acc fileIndex sheetNames sheetName acc' Hentry Hsheet Hacc.
    destruct (columnSelections !! tab_key fileIndex sheetName) as [selection|] eqn:Hsel;
      [|by intros [= <-]].
    destruct (MatrixConfigurator.sourceOf fileData fileIndex sheetName)
      as [source|] eqn:Hsource; [|done].
    simpl. destruct (existsb _ _) eqn:Hexists; intros [= <-]; [done|].
    destruct acc; [|done]. simpl. by eapply Hadd.
  - intros [= <-]. apply Forall_alter; [done|]. intros c _ Hc. simpl.
    by apply Hdelete.
  - intros [= <-]. by apply Forall_alter.
Qed.

Lemma after_invariant (actions : list MatrixConfigurator.action)
    (configs : list MatrixConfigurator.config) :
  MatrixConfigurator.after fileData selectedTabs columnSelections actions = Ok configs →
  Forall (λ c, P (MatrixConfigurator.sources c)) configs.
Proof.
  unfold MatrixConfigurator.after.
  destruct (MatrixConfigurator.initialConfigs _ _ _) as [initial|] eqn:Hinitial;
    [|done].
  simpl. apply forEach_invariant; [|by apply initialConfigs_invariant].
  intros s a s' _. apply handle_invariant.
Qed.

End invariant.

End configurator.

(** X21.  The configurations the component can hold never name a file that
    does not exist.  After any sequence of events that the handlers complete,
    every source of every configuration names a selected tab that has a
    selection and a file of the list, with its name; so [computeMatrices]
    returns on these configurations: it raises only on configurations that
    were not built against the same files. *)
Theorem configured_sources_are_sound (fileData : list File.t)
    (selectedTabs : list (nat * list string))
    (columnSelections : gmap string Selection.t)
    (actions : list MatrixConfigurator.action)
    (configs : list MatrixConfigurator.config)
    (selectedTabs' : gmap string (list string)) :
  MatrixConfigurator.after fileData selectedTabs columnSelections actions = Ok configs →
  Forall (λ c, Forall (source_sound fileData selectedTabs columnSelections)
                 (MatrixConfigurator.sources c)) configs ∧
  ∃ matrices,
    computeMatrices fileData selectedTabs' columnSelections
      (MatrixConfigurator.toConfig <$> configs) = Ok matrices.
Proof.
  intros Hafter.
  assert (Hsound : Forall (λ c,
    Forall (source_sound fileData selectedTabs columnSelections)
      (MatrixConfigurator.sources c)) configs).
  { revert Hafter. apply after_invariant.
    - intros fileIndex sheetNames sheetName source Hentry Hsheet Hsel Hsource.
      constructor; [|constructor]. by eapply sourceOf_sound.
    - intros sources fileIndex sheetNames sheetName source Hentry Hsheet Hsel Hsource
        _ Hsources.
      apply Forall_app. split; [done|]. constructor; [|constructor].
      by eapply sourceOf_sound.
    - intros sources sourceIndex. apply Forall_delete. }
  split; [done|]. eexists. apply computeMatrices_resolved.
  unfold all_resolve. apply Forall_fmap. eapply Forall_impl; [exact Hsound|].
  intros c Hc. simpl. eapply Forall_impl; [exact Hc|].
  intros source (_ & _ & file & Hfile & _). unfold resolves. by exists file.
Qed.

Lemma configured_sources_are_sound_witness :
  ∃ configs,
    MatrixConfigurator.after scenarioB_files scenarioB_tabs scenarioB_selections
      [MatrixConfigurator.AddSource 0; MatrixConfigurator.ToggleMerge 0;
       MatrixConfigurator.RemoveMatrix 1]
    = Ok configs ∧
    MatrixConfigurator.toConfig <$> configs
    = [ {| Config.name := "staff - Roles";
           Config.sources := [scenarioB_roles; scenarioB_extra];
           Config.merge := true |} ] ∧
    Forall (λ c, Forall (source_sound scenarioB_files scenarioB_tabs scenarioB_selections)
                   (MatrixConfigurator.sources c)) configs ∧
    ∃ matrices,
      computeMatrices scenarioB_files ∅ scenarioB_selections
        (MatrixConfigurator.toConfig <$> configs) = Ok matrices.
Proof.
  eexists. split; [vm_compute; reflexivity|]. split; [vm_compute; reflexivity|].
  apply (configured_sources_are_sound scenarioB_files scenarioB_tabs
           scenarioB_selections
           [MatrixConfigurator.AddSource 0; MatrixConfigurator.ToggleMerge 0;
            MatrixConfigurator.RemoveMatrix 1]).
  vm_compute. reflexivity.
Defined.

(** X22.  No configuration ever lists a sheet twice.  After any sequence of
    events that the handlers complete, the sources of a configuration name
    different sheets, whatever the list of the selected tabs: a click on the
    button that adds a source adds a sheet the configuration does not have
    yet, or nothing. *)
Theorem no_sheet_twice (fileData : list File.t)
    (selectedTabs : list (nat * list string))
    (columnSelections : gmap string Selection.t)
    (actions : list MatrixConfigurator.action)
    (configs : list MatrixConfigurator.config) :
  MatrixConfigurator.after fileData selectedTabs columnSelections actions = Ok configs →
  Forall (λ c, NoDup (place <$> MatrixConfigurator.sources c)) configs.
Proof.
  apply (after_invariant _ _ _ (λ sources, NoDup (place <$> sources))).
  - intros. apply NoDup_singleton.
  - intros sources fileIndex sheetNames sheetName source _ _ _ _ Hexists Hsources.
    rewrite fmap_app. apply NoDup_app. split_and!; [done| |apply NoDup_singleton].
    intros p (s & -> & Hs)%list_elem_of_fmap Hplace%list_elem_of_singleton.
    assert (Htrue : existsb (λ s, MatrixConfigurator.same_place s source) sources = true);
      [|congruence].
    apply existsb_exists. exists s. split; [by apply list_elem_of_In|].
    unfold MatrixConfigurator.same_place. unfold place in Hplace.
    injection Hplace as -> ->. by rewrite !bool_decide_true.
  - intros sources sourceIndex Hsources. rewrite list_fmap_delete.
    eapply sublist_NoDup; [done|]. apply sublist_delete.
Qed.

Lemma no_sheet_twice_witness :
  ∃ configs,
    MatrixConfigurator.after scenarioB_files scenarioB_tabs scenarioB_selections
      [MatrixConfigurator.AddSource 0; MatrixConfigurator.AddSource 0;
       MatrixConfigurator.AddSource 0]
    = Ok configs ∧
    (MatrixConfigurator.sources <$> configs
     = [ [scenarioB_roles; scenarioB_extra]; [scenarioB_extra] ]) ∧
    Forall (λ c, NoDup (place <$> MatrixConfigurator.sources c)) configs.
Proof.
  eexists. split; [vm_compute; reflexivity|]. split; [vm_compute; reflexivity|].
  apply (no_sheet_twice scenarioB_files scenarioB_tabs scenarioB_selections
           [MatrixConfigurator.AddSource 0; MatrixConfigurator.AddSource 0;
            MatrixConfigurator.AddSource 0]).
  vm_compute. reflexivity.
Defined.

(** Two loops over the same list, step by step. *)
Lemma forEach_related {A St1 St2 : Type} (R : St1 → St2 → Prop)
    (body1 : St1 → A → result St1) (body2 : St2 → A → result St2)
    (l : list A) (s1 r1 : St1) (s2 r2 : St2) :
  (∀ s1 s2 a s1' s2', R s1 s2 → body1 s1 a = Ok s1' → body2 s2 a = Ok s2' → R s1' s2') →
  R s1 s2 → forEach body1 s1 l = Ok r1 → forEach body2 s2 l = Ok r2 → R r1 r2.
Proof.
  intros Hbody. revert s1 s2.
  induction l as [|a l IH]; intros s1 s2 Hs Hrun1 Hrun2; simpl in *.
  - by injection Hrun1 as <-; injection Hrun2 as <-.
  - destruct (body1 s1 a) as [s1'|] eqn:Hstep1; [|done].
    destruct (body2 s2 a) as [s2'|] eqn:Hstep2; [|done].
    simpl in *. apply (IH s1' s2'); [|done..]. by eapply Hbody.
Qed.

(** A property that the step at one element brings about, and that every
    step keeps, holds after the loop. *)
Lemma forEach_after {A St : Type} (P : St → Prop) (body : St → A → result St)
    (l : list A) (a : A) (s r : St) :
  a ∈ l →
  (∀ s s', body s a = Ok s' → P s') →
  (∀ s b s', P s → body s b = Ok s' → P s') →
  forEach body s l = Ok r → P r.
Proof.
  intros Ha Hbrings Hkeeps. revert s.
  induction l as [|b l IH]; intros s Hrun; [by apply elem_of_nil in Ha|].
  simpl in Hrun. destruct (body s b) as [s'|] eqn:Hstep; [|done]. simpl in Hrun.
  apply elem_of_cons in Ha as [<-|Ha].
  - revert Hrun. apply forEach_invariant; [|by eapply Hbrings].
    intros s1 b s1' _. apply Hkeeps.
  - by apply (IH Ha s').
Qed.

Section continue.
Context (fileData : list File.t) (selectedTabs : list (nat * list string)).
Context (columnSelections : gmap string Selection.t).

Lemma forEachTab_related {St1 St2 : Type} (R : St1 → St2 → Prop)
    (body1 : St1 → nat → string → result St1)
    (body2 : St2 → nat → string → result St2) (s1 r1 : St1) (s2 r2 : St2) :
  (∀ s1 s2 fileIndex sheetName s1' s2', R s1 s2 →
     body1 s1 fileIndex sheetName = Ok s1' → body2 s2 fileIndex sheetName = Ok s2' →
     R s1' s2') →
  R s1 s2 →
  MatrixConfigurator.forEachTab selectedTabs body1 s1 = Ok r1 →
  MatrixConfigurator.forEachTab selectedTabs body2 s2 = Ok r2 → R r1 r2.
Proof.
  intros Hbody. unfold MatrixConfigurator.forEachTab. apply forEach_related.
  intros t1 t2 [fileIndex sheetNames] t1' t2'. cbn [fst snd].
  apply forEach_related. intros u1 u2 sheetName u1' u2'. apply Hbody.
Qed.

Lemma forEachTab_after {St : Type} (P : St → Prop)
    (body : St → nat → string → result St)
    (fileIndex : nat) (sheetNames : list string) (sheetName : string) (s r : St) :
  (fileIndex, sheetNames) ∈ selectedTabs → sheetName ∈ sheetNames →
  (∀ s s', body s fileIndex sheetName = Ok s' → P s') →
  (∀ s i n s', P s → body s i n = Ok s' → P s') →
  MatrixConfigurator.forEachTab selectedTabs body s = Ok r → P r.
Proof.
  intros Hentry Hsheet Hbrings Hkeeps. unfold MatrixConfigurator.forEachTab.
  apply (forEach_after P _ _ (fileIndex, sheetNames)); [done| |].
  - intros t t'. cbn [fst snd].
    apply (forEach_after P _ _ sheetName); [done|exact Hbrings|].
    intros u n u'. apply Hkeeps.
  - intros t [i names] t' Ht. cbn [fst snd]. apply forEach_invariant; [|done].
    intros u n u' _. apply Hkeeps.
Qed.

(** There is a first configuration exactly when some selected tab has a
    selection. *)
Lemma initialConfigs_nil (initial : list MatrixConfigurator.config) :
  MatrixConfigurator.initialConfigs fileData selectedTabs columnSelections = Ok initial →
  (0 < length initial)%nat ↔ tab_with_selection selectedTabs columnSelections.
Proof.
  intros Hinitial. split.
  - revert Hinitial. unfold MatrixConfigurator.initialConfigs.
    apply (forEachTab_invariant _ (λ acc,
      (0 < length acc)%nat → tab_with_selection selectedTabs columnSelections));
      [|simpl; lia].
    intros acc fileIndex sheetNames sheetName acc' Hentry Hsheet Hacc.
    destruct (columnSelections !! tab_key fileIndex sheetName) as [selection|] eqn:Hsel;
      [|by intros [= <-]].
    intros _ _. exists fileIndex, sheetNames, sheetName. by rewrite Hsel.
  - intros (fileIndex & sheetNames & sheetName & Hentry & Hsheet & [selection Hsel]).
    revert Hinitial. unfold MatrixConfigurator.initialConfigs.
    apply (forEachTab_after (λ acc, (0 < length acc)%nat) _
             fileIndex sheetNames sheetName); [done..| |].
    + intros acc acc'. rewrite Hsel.
      destruct (MatrixConfigurator.sourceOf fileData fileIndex sheetName); [|done].
      simpl. intros [= <-]. rewrite length_app. simpl. lia.
    + intros acc i n acc' Hacc.
      destruct (columnSelections !! tab_key i n); [|by intros [= <-]].
      destruct (MatrixConfigurator.sourceOf fileData i n); [|done].
      simpl. intros [= <-]. rewrite length_app. simpl. lia.
Qed.

Section offered.
Context (initial : list MatrixConfigurator.config).
Context (Hinitial :
  MatrixConfigurator.initialConfigs fileData selectedTabs columnSelections = Ok initial).

Lemma handle_ready (configs configs' : list MatrixConfigurator.config)
    (a : MatrixConfigurator.action) :
  ready initial configs →
  MatrixConfigurator.offered configs a = true →
  MatrixConfigurator.handle fileData selectedTabs columnSelections configs a
  = Ok configs' →
  ready initial configs'.
Proof.
  intros [Hsources Hlen] Hoffered.
  destruct a as [index| |index|matrixIndex|matrixIndex sourceIndex|index newName];
    simpl in *.
  - intros [= <-]. split; [by apply Forall_alter|].
    unfold MatrixConfigurator.handleToggleMerge. by rewrite length_alter.
  - unfold MatrixConfigurator.handleAddMatrix.
    destruct (MatrixConfigurator.forEachTab _ _ _) as [available|] eqn:Havailable;
      [|done].
    simpl. destruct available as [|firstSource available]; intros [= <-]; [done|].
    split.
    + apply Forall_app. split; [done|]. constructor; [simpl; lia|constructor].
    + rewrite length_app. simpl.
      assert (length initial = length (firstSource :: available)); [|simpl in *; lia].
      eapply (forEachTab_related
                (λ (acc1 : list MatrixConfigurator.config) (acc2 : list Source.t),
                   length acc1 = length acc2));
        [| |exact Hinitial|exact Havailable]; [|done].
      intros acc1 acc2 fileIndex sheetName acc1' acc2' Hacc. cbn beta.
      destruct (columnSelections !! tab_key fileIndex sheetName);
        [|by intros [= <-] [= <-]].
      destruct (MatrixConfigurator.sourceOf fileData fileIndex sheetName); [|done].
      simpl. intros [= <-] [= <-]. rewrite !length_app. simpl. lia.
  - apply andb_true_iff in Hoffered as [Hmany Hindex].
    apply bool_decide_eq_true in Hmany, Hindex.
    intros [= <-]. unfold MatrixConfigurator.handleRemoveMatrix.
    split; [by apply Forall_delete|].
    rewrite length_delete by (by apply lookup_lt_is_Some). lia.
  - unfold MatrixConfigurator.handleAddSource.
    destruct (MatrixConfigurator.forEachTab _ _ _) as [available|]; [|done].
    simpl. destruct available as [|newSource available]; [by intros [= <-]|].
    destruct (configs !! matrixIndex) as [current|]; intros [= <-]; [|done].
    split; [|by rewrite length_alter].
    apply Forall_alter; [done|]. intros c _ _. simpl. rewrite length_app. simpl. lia.
  - intros [= <-]. unfold MatrixConfigurator.handleRemoveSource.
    split; [|by rewrite length_alter].
    apply Forall_alter; [done|]. intros c Hc _. simpl. rewrite Hc in Hoffered.
    apply andb_true_iff in Hoffered as [Hmany Hindex].
    apply bool_decide_eq_true in Hmany, Hindex.
    rewrite length_delete by (by apply lookup_lt_is_Some). lia.
  - intros [= <-]. split; [by apply Forall_alter|].
    unfold MatrixConfigurator.handleNameChange. by rewrite length_alter.
Qed.

Lemma forEach_handle_ready (actions : list MatrixConfigurator.action)
    (configs configs' : list MatrixConfigurator.config) :
  ready initial configs →
  MatrixConfigurator.all_offered fileData selectedTabs columnSelections configs actions →
  forEach (MatrixConfigurator.handle fileData selectedTabs columnSelections)
    configs actions = Ok configs' →
  ready initial configs'.
Proof.
  revert configs. induction actions as [|a actions IH]; intros configs Hready Hall Hrun;
    simpl in *.
  - by injection Hrun as <-.
  - destruct Hall as [Hoffered Hall].
    destruct (MatrixConfigurator.handle _ _ _ configs a) as [configs1|] eqn:Hstep;
      [|done].
    simpl in Hrun. apply (IH configs1); [|done..]. by eapply handle_ready.
Qed.

Lemma handleContinue_ready (configs : list MatrixConfigurator.config) :
  ready initial configs →
  MatrixConfigurator.handleContinue configs
  = if decide (0 < length initial)%nat then Some configs else None.
Proof.
  intros [Hsources Hlen]. unfold MatrixConfigurator.handleContinue.
  case_bool_decide as Hnone.
  - by rewrite decide_False by lia.
  - rewrite decide_True by lia.
    assert (Hvalid : existsb (λ c,
      bool_decide (length (MatrixConfigurator.sources c) = 0%nat)) configs = false);
      [|by rewrite Hvalid].
    apply not_true_is_false. intros (c & Hc & Hempty)%existsb_exists.
    apply list_elem_of_In in Hc. apply bool_decide_eq_true in Hempty.
    apply (proj1 (Forall_forall _ _) Hsources) in Hc. lia.
Qed.

End offered.

End continue.

(** X23.  [handleContinue] is not in the way of a user who selected columns.
    After any sequence of events that the rendered controls can raise, the
    handler hands the configurations on, unchanged, when some selected tab
    has a selection, and it alerts when none has: the removal of the last
    configuration, or of the last source of a configuration, is never
    offered, so the alert for a configuration without a source is never
    reached. *)
Theorem continue_is_not_blocked (fileData : list File.t)
    (selectedTabs : list (nat * list string))
    (columnSelections : gmap string Selection.t)
    (initial : list MatrixConfigurator.config)
    (actions : list MatrixConfigurator.action)
    (configs : list MatrixConfigurator.config) :
  MatrixConfigurator.initialConfigs fileData selectedTabs columnSelections = Ok initial →
  MatrixConfigurator.all_offered fileData selectedTabs columnSelections initial actions →
  forEach (MatrixConfigurator.handle fileData selectedTabs columnSelections)
    initial actions = Ok configs →
  (tab_with_selection selectedTabs columnSelections →
   MatrixConfigurator.handleContinue configs = Some configs) ∧
  (¬ tab_with_selection selectedTabs columnSelections →
   configs = [] ∧ MatrixConfigurator.handleContinue configs = None).
Proof.
  intros Hinitial Hall Hrun.
  assert (Hready : ready initial configs).
  { eapply (forEach_handle_ready _ _ _ initial Hinitial actions initial);
      [|done..].
    split; [|done]. revert Hinitial.
    apply (initialConfigs_invariant _ _ _ (λ sources, (0 < length sources)%nat)).
    intros. simpl. lia. }
  pose proof (handleContinue_ready initial configs Hready) as Hcontinue.
  pose proof (initialConfigs_nil _ _ _ _ Hinitial) as Hsome.
  split; intros Hsel.
  - by rewrite Hcontinue, decide_True by (by apply Hsome).
  - rewrite Hcontinue, decide_False by (by rewrite Hsome). split; [|done].
    destruct Hready as [_ Hlen]. destruct configs; [done|]. simpl in Hlen.
    destruct Hsel. apply Hsome, Hlen. lia.
Qed.

Lemma continue_is_not_blocked_witness :
  MatrixConfigurator.initialConfigs scenarioB_files scenarioB_tabs scenarioB_selections
  = Ok scenarioB_initial ∧
  MatrixConfigurator.all_offered scenarioB_files scenarioB_tabs scenarioB_selections
    scenarioB_initial scenarioB_actions ∧
  forEach (MatrixConfigurator.handle scenarioB_files scenarioB_tabs scenarioB_selections)
    scenarioB_initial scenarioB_actions
  = Ok scenarioB_configured ∧
  MatrixConfigurator.handleContinue scenarioB_configured = Some scenarioB_configured.
Proof.
  assert (Hinitial :
    MatrixConfigurator.initialConfigs scenarioB_files scenarioB_tabs scenarioB_selections
    = Ok scenarioB_initial) by (vm_compute; reflexivity).
  assert (Hall :
    MatrixConfigurator.all_offered scenarioB_files scenarioB_tabs scenarioB_selections
      scenarioB_initial scenarioB_actions) by (vm_compute; tauto).
  assert (Hrun :
    forEach (MatrixConfigurator.handle scenarioB_files scenarioB_tabs
               scenarioB_selections) scenarioB_initial scenarioB_actions
    = Ok scenarioB_configured) by (vm_compute; reflexivity).
  assert (Hsel : tab_with_selection scenarioB_tabs scenarioB_selections).
  { exists 0%nat, ["Roles"; "Extra"], "Roles". split; [by left|]. split; [by left|].
    exists {| Selection.yAxis := Some "Emp"; Selection.xAxis := Some "Role";
              Selection.secondaryXAxis := Some "Dept" |}.
    vm_compute. reflexivity. }
  split; [exact Hinitial|]. split; [exact Hall|]. split; [exact Hrun|].
  exact (proj1 (continue_is_not_blocked scenarioB_files scenarioB_tabs
                  scenarioB_selections scenarioB_initial scenarioB_actions
                  scenarioB_configured Hinitial Hall Hrun) Hsel).
Defined.
